(** * Tic-Tac-Toe: the game engine of [src/components/TicTacToeGame.tsx]

    A shallow embedding of the state engine that lives inside the React
    component [TicTacToeGame]: the win detector [checkWinner], the state
    updater [makeMove], the heuristic opponent [getBestMove], the timer
    callback, the AI effect and the three controller actions.

    Conventions.
    - JavaScript numbers that the component only uses as small
      non-negative integers (indices, scores, seconds) are [nat].
    - [Math.floor(Math.random() * n)] is an injected draw [r : nat]; it is a
      legal draw when [r < n].  Floating point is not modelled.
    - Toast notifications are presentation only and are left out.
    - Events are handled one at a time, every callback sees the state of
      the last render, and every state updater runs once. *)

From Stdlib Require Import List Arith Bool Lia.
Import ListNotations.

(** ** Data model *)

Inductive Mark : Type := X | O.

(** [type Player = 'X' | 'O' | null] : [None] is [null]. *)
Definition Player : Type := option Mark.

Inductive GameStatus : Type := playing | won | draw.

Inductive GameMode : Type := pvp | pve.

(** [scores: { X: number; O: number; draws: number }] *)
Record Scores : Type := mkScores {
  scores_X : nat;
  scores_O : nat;
  scores_draws : nat
}.

(** A slot of a JavaScript array of [Player].  A dense [Player[]] only has
    [Val] slots; [Hole] and [Undefined] appear when a write beyond the end
    extends the array. *)
Inductive Slot : Type :=
  | Hole
  | Undefined
  | Val (p : Player).

Definition Board : Type := list Slot.

Record GameState : Type := mkGameState {
  board : Board;
  currentPlayer : Player;
  status : GameStatus;
  winner : Player;
  winningCells : list nat;
  scores : Scores;
  mode : GameMode
}.

Definition Mark_eq_dec (a b : Mark) : {a = b} + {a <> b}.
Proof. decide equality. Defined.

Definition Player_eq_dec (a b : Player) : {a = b} + {a <> b}.
Proof. decide equality. apply Mark_eq_dec. Defined.

Definition GameStatus_eq_dec (a b : GameStatus) : {a = b} + {a <> b}.
Proof. decide equality. Defined.

Definition GameMode_eq_dec (a b : GameMode) : {a = b} + {a <> b}.
Proof. decide equality. Defined.

Definition other (m : Mark) : Mark :=
  match m with X => O | O => X end.

(** ** JavaScript arrays *)

Module Js.

(** [arr[i]] : [None] is [undefined] (a hole, an [undefined] element or an
    index past the end), [Some p] is the [Player] stored there. *)
Definition get (arr : Board) (i : nat) : option Player :=
  match nth_error arr i with
  | Some (Val p) => Some p
  | _ => None
  end.

(** Truthiness of [arr[i]] : only ['X'] and ['O'] are truthy. *)
Definition truthy (v : option Player) : bool :=
  match v with
  | Some (Some _) => true
  | _ => false
  end.

(** [v === null] *)
Definition is_null (v : option Player) : bool :=
  match v with
  | Some None => true
  | _ => false
  end.

(** [a === b] on values read from a board. *)
Definition strict_eq (a b : option Player) : bool :=
  match a, b with
  | None, None => true
  | Some p, Some q => if Player_eq_dec p q then true else false
  | _, _ => false
  end.

(** [[...arr]] : the copy is dense, holes become [undefined]. *)
Definition spread (arr : Board) : Board :=
  map (fun s => match s with Hole => Undefined | _ => s end) arr.

Fixpoint replace (arr : Board) (i : nat) (v : Slot) : Board :=
  match arr, i with
  | [], _ => []
  | _ :: t, 0 => v :: t
  | h :: t, S j => h :: replace t j v
  end.

(** [arr[i] = v] : in range the slot is overwritten, past the end the array
    grows and the gap is left as holes. *)
Definition set (arr : Board) (i : nat) (v : Slot) : Board :=
  if i <? length arr then replace arr i v
  else arr ++ repeat Hole (i - length arr) ++ [v].

(** [arr.every(cell => cell !== null)] : holes are skipped. *)
Definition every_not_null (arr : Board) : bool :=
  forallb (fun s => match s with Val None => false | _ => true end) arr.

(** [arr.some(cell => cell !== null)] : holes are skipped. *)
Definition some_not_null (arr : Board) : bool :=
  existsb (fun s => match s with Hole | Val None => false | _ => true end) arr.

(** [arr.map((cell, index) => cell === null ? index : null)
       .filter(val => val !== null)] *)
Definition null_indices (arr : Board) : list nat :=
  flat_map (fun ic : nat * Slot =>
              match snd ic with Val None => [fst ic] | _ => [] end)
           (combine (seq 0 (length arr)) arr).

End Js.

(** ** Constants *)

Definition INITIAL_STATE : GameState := {|
  board := repeat (Val None) 9;
  currentPlayer := Some X;
  status := playing;
  winner := None;
  winningCells := [];
  scores := {| scores_X := 0; scores_O := 0; scores_draws := 0 |};
  mode := pve
|}.

Definition WINNING_COMBINATIONS : list (list nat) :=
  [ [0; 1; 2]; [3; 4; 5]; [6; 7; 8];
    [0; 3; 6]; [1; 4; 7]; [2; 5; 8];
    [0; 4; 8]; [2; 4; 6] ].

(** ** Win detector *)

(** The [for ... of] loop of [checkWinner] over the remaining combinations. *)
Fixpoint checkWinner_from (combos : list (list nat)) (board : Board)
  : Player * list nat :=
  match combos with
  | [] => (None, [])
  | combination :: rest =>
      match combination with
      | [a; b; c] =>
          if Js.truthy (Js.get board a)
             && Js.strict_eq (Js.get board a) (Js.get board b)
             && Js.strict_eq (Js.get board a) (Js.get board c)
          then (match Js.get board a with Some p => p | None => None end,
                combination)
          else checkWinner_from rest board
      | _ => checkWinner_from rest board
      end
  end.

(** [checkWinner(board)] returns [{ winner, winningCells }]. *)
Definition checkWinner (board : Board) : Player * list nat :=
  checkWinner_from WINNING_COMBINATIONS board.

(** ** Move applier *)

(** [newScores[winner]++] *)
Definition incr_winner (w : Mark) (sc : Scores) : Scores :=
  match w with
  | X => {| scores_X := S (scores_X sc); scores_O := scores_O sc;
            scores_draws := scores_draws sc |}
  | O => {| scores_X := scores_X sc; scores_O := S (scores_O sc);
            scores_draws := scores_draws sc |}
  end.

(** [newScores.draws++] *)
Definition incr_draws (sc : Scores) : Scores :=
  {| scores_X := scores_X sc; scores_O := scores_O sc;
     scores_draws := S (scores_draws sc) |}.

Definition is_playing (st : GameStatus) : bool :=
  if GameStatus_eq_dec st playing then true else false.

(** The updater that [makeMove(index, player)] hands to [setGameState]. *)
Definition makeMove (index : nat) (player : Player) (prev : GameState)
  : GameState :=
  if Js.truthy (Js.get (board prev) index) || negb (is_playing (status prev))
  then prev
  else
    let newBoard := Js.set (Js.spread (board prev)) index (Val player) in
    match checkWinner newBoard with
    | (Some w, cells) =>
        {| board := newBoard;
           currentPlayer := currentPlayer prev;
           status := won;
           winner := Some w;
           winningCells := cells;
           scores := incr_winner w (scores prev);
           mode := mode prev |}
    | (None, _) =>
        if Js.every_not_null newBoard then
          {| board := newBoard;
             currentPlayer := currentPlayer prev;
             status := draw;
             winner := winner prev;
             winningCells := winningCells prev;
             scores := incr_draws (scores prev);
             mode := mode prev |}
        else
          {| board := newBoard;
             currentPlayer :=
               (if Player_eq_dec player (Some X) then Some O else Some X);
             status := status prev;
             winner := winner prev;
             winningCells := winningCells prev;
             scores := scores prev;
             mode := mode prev |}
    end.

(** ** AI move selector *)

(** The list every caller computes as [availableMoves]. *)
Definition availableMoves (board : Board) : list nat :=
  Js.null_indices board.

(** [checkWinner(testBoard).winner === m] with [testBoard] the copy of
    [board] in which [move] holds [m]. *)
Definition wins_at (m : Mark) (board : Board) (move : nat) : bool :=
  let testBoard := Js.set (Js.spread board) move (Val (Some m)) in
  if Player_eq_dec (fst (checkWinner testBoard)) (Some m) then true else false.

(** [[0, 2, 6, 8].filter(i => board[i] === null)] *)
Definition emptyCorners (board : Board) : list nat :=
  filter (fun i => Js.is_null (Js.get board i)) [0; 2; 6; 8].

(** [getBestMove(board)]; [r] is the one draw
    [Math.floor(Math.random() * list.length)] the call may make.  [None] is
    [undefined], the value of an array read past the end. *)
Definition getBestMove (r : nat) (board : Board) : option nat :=
  let availableMoves := availableMoves board in
  match find (wins_at O board) availableMoves with
  | Some move => Some move
  | None =>
      match find (wins_at X board) availableMoves with
      | Some move => Some move
      | None =>
          if Js.is_null (Js.get board 4) then Some 4
          else
            let corners := emptyCorners board in
            if 0 <? length corners then nth_error corners r
            else nth_error availableMoves r
      end
  end.

(** ** Timer, effects and events *)

(** The three pieces of component state. *)
Record World : Type := mkWorld {
  gameState : GameState;
  timeLeft : nat;
  isTimerActive : bool
}.

Definition initialWorld : World :=
  {| gameState := INITIAL_STATE; timeLeft := 10; isTimerActive := true |}.

Definition is_pve (m : GameMode) : bool :=
  if GameMode_eq_dec m pve then true else false.

Definition is_pvp (m : GameMode) : bool :=
  if GameMode_eq_dec m pvp then true else false.

Definition is_player (p q : Player) : bool :=
  if Player_eq_dec p q then true else false.

(** The body shared by both branches of the timeout: pick
    [availableMoves[r]] and play it for [player], when a move is
    available.  [None] only when [r] is not a legal draw. *)
Definition randomMoveFor (r : nat) (player : Player) (g : GameState)
  : option GameState :=
  let availableMoves := availableMoves (board g) in
  if 0 <? length availableMoves then
    match nth_error availableMoves r with
    | Some randomMove => Some (makeMove randomMove player g)
    | None => None
    end
  else Some g.

(** What the timer callback does to the game when [prev <= 1]. *)
Definition onTimeUp (r : nat) (g : GameState) : option GameState :=
  if is_pve (mode g) && is_player (currentPlayer g) (Some X) then
    (* In PvE mode, if player X times out, AI gets a free move *)
    randomMoveFor r (Some O) g
  else if is_pvp (mode g) then
    (* In PvP mode, current player loses turn, switch to other player *)
    let nextPlayer :=
      if is_player (currentPlayer g) (Some X) then Some O else Some X in
    randomMoveFor r nextPlayer g
  else Some g.

(** One firing of the [setInterval] callback. *)
Definition tick (r : nat) (w : World) : option World :=
  if timeLeft w <=? 1 then
    match onTimeUp r (gameState w) with
    | Some g => Some {| gameState := g; timeLeft := 10;
                        isTimerActive := isTimerActive w |}
    | None => None
    end
  else Some {| gameState := gameState w; timeLeft := timeLeft w - 1;
               isTimerActive := isTimerActive w |}.

(** The interval only exists while this holds. *)
Definition timerRunning (w : World) : bool :=
  isTimerActive w && is_playing (status (gameState w)).

(** Condition of the AI effect. *)
Definition aiToMove (g : GameState) : bool :=
  is_pve (mode g) && is_player (currentPlayer g) (Some O)
  && is_playing (status g).

(** The [setTimeout] callback of the AI effect.  [None] when the selector
    has no index to give. *)
Definition aiMove (r : nat) (w : World) : option World :=
  match getBestMove r (board (gameState w)) with
  | Some bestMove =>
      Some {| gameState := makeMove bestMove (Some O) (gameState w);
              timeLeft := 10; isTimerActive := true |}
  | None => None
  end.

(** ** Controller actions *)

Definition resetGame (prev : GameState) : GameState :=
  {| board := board INITIAL_STATE;
     currentPlayer := currentPlayer INITIAL_STATE;
     status := status INITIAL_STATE;
     winner := winner INITIAL_STATE;
     winningCells := winningCells INITIAL_STATE;
     scores := scores prev;
     mode := mode prev |}.

Definition resetScores (prev : GameState) : GameState :=
  {| board := board INITIAL_STATE;
     currentPlayer := currentPlayer INITIAL_STATE;
     status := status INITIAL_STATE;
     winner := winner INITIAL_STATE;
     winningCells := winningCells INITIAL_STATE;
     scores := scores INITIAL_STATE;
     mode := mode prev |}.

Definition changeGameMode (mode' : GameMode) (prev : GameState) : GameState :=
  {| board := board INITIAL_STATE;
     currentPlayer := currentPlayer INITIAL_STATE;
     status := status INITIAL_STATE;
     winner := winner INITIAL_STATE;
     winningCells := winningCells INITIAL_STATE;
     scores := scores prev;
     mode := mode' |}.

(** All three actions end with [setTimeLeft(10); setIsTimerActive(true)]. *)
Definition restartTimer (g : GameState) : World :=
  {| gameState := g; timeLeft := 10; isTimerActive := true |}.

(** [disabled] attribute of both mode buttons. *)
Definition modeButtonDisabled (g : GameState) : bool :=
  is_playing (status g) && Js.some_not_null (board g).

(** A click on a mode button: a disabled button does not call [onClick]. *)
Definition clickModeButton (mode' : GameMode) (w : World) : World :=
  if modeButtonDisabled (gameState w) then w
  else restartTimer (changeGameMode mode' (gameState w)).

(** [disabled] attribute of the cell button at [index], whose [value] is the
    slot the board's [map] visits there (holes get no button). *)
Definition cellDisabled (g : GameState) (index : nat) : bool :=
  match nth_error (board g) index with
  | Some (Val value) =>
      (negb (is_playing (status g))
       || (is_pve (mode g) && negb (is_player (currentPlayer g) (Some X))))
      || negb (Js.is_null (Some value))
  | _ => true
  end.

(** A click on the cell at [index]:
    [onClick={() => makeMove(index, gameState.currentPlayer)}]. *)
Definition clickCell (index : nat) (w : World) : World :=
  if cellDisabled (gameState w) index then w
  else {| gameState := makeMove index (currentPlayer (gameState w))
                                (gameState w);
          timeLeft := timeLeft w; isTimerActive := isTimerActive w |}.

(** The two effects that only touch the timer, run after a render whose game
    state went from [before] to the one in [w].
    - AI effect: [setIsTimerActive(false)] when the AI is to move.
    - Reset-timer effect: back to 10 and active when the round is being
      played and it is a timed player's turn.
    Each runs only when one of its dependencies changed.  React compares
    the board by identity; the model compares contents, which is the same
    thing as long as every accepted move writes a mark. *)
Definition afterRender (before : GameState) (w : World) : World :=
  let g := gameState w in
  let changed_cur := negb (is_player (currentPlayer before) (currentPlayer g)) in
  let changed_status :=
    if GameStatus_eq_dec (status before) (status g) then false else true in
  let changed_mode :=
    if GameMode_eq_dec (mode before) (mode g) then false else true in
  let changed_board :=
    if list_eq_dec (fun a b : Slot =>
                      ltac:(decide equality; apply Player_eq_dec)
                      : {a = b} + {a <> b})
                   (board before) (board g) then false else true in
  let w1 :=
    if aiToMove g
       && (changed_cur || changed_status || changed_board || changed_mode)
    then {| gameState := g; timeLeft := timeLeft w; isTimerActive := false |}
    else w in
  if is_playing (status g)
     && (is_pvp (mode g)
         || (is_pve (mode g) && is_player (currentPlayer g) (Some X)))
     && (changed_cur || changed_status || changed_mode)
  then {| gameState := g; timeLeft := 10; isTimerActive := true |}
  else w1.

Inductive Event : Type :=
  | CellClicked (index : nat)
  | TimerFired (r : nat)
  | AiDelayElapsed (r : nat)
  | NewGameClicked
  | ResetScoresClicked
  | ModeClicked (mode' : GameMode).

(** The callback an event runs; [None] when the event cannot occur in [w]
    (no interval, no pending AI timeout) or [r] is not a legal draw. *)
Definition handle (e : Event) (w : World) : option World :=
  match e with
  | CellClicked index => Some (clickCell index w)
  | TimerFired r => if timerRunning w then tick r w else None
  | AiDelayElapsed r => if aiToMove (gameState w) then aiMove r w else None
  | NewGameClicked => Some (restartTimer (resetGame (gameState w)))
  | ResetScoresClicked => Some (restartTimer (resetScores (gameState w)))
  | ModeClicked mode' => Some (clickModeButton mode' w)
  end.

(** One engine transition: the callback, then the effects of the render. *)
Definition step (e : Event) (w : World) : option World :=
  match handle e w with
  | Some w' => Some (afterRender (gameState w) w')
  | None => None
  end.

(** Worlds the component can be in. *)
Inductive reachable : World -> Prop :=
  | reachable_initial : reachable initialWorld
  | reachable_step e w w' :
      reachable w -> step e w = Some w' -> reachable w'.

Fixpoint run (es : list Event) (w : World) : option World :=
  match es with
  | [] => Some w
  | e :: rest =>
      match step e w with
      | Some w' => run rest w'
      | None => None
      end
  end.

(** ** Vocabulary of the properties *)

(** The three cells of [line] all hold mark [m]. *)
Definition line_of (m : Mark) (board : Board) (line : list nat) : Prop :=
  exists a b c,
    line = [a; b; c]
    /\ Js.get board a = Some (Some m)
    /\ Js.get board b = Some (Some m)
    /\ Js.get board c = Some (Some m).

(** Some winning combination is entirely [m]'s. *)
Definition has_triple (m : Mark) (board : Board) : Prop :=
  exists line, In line WINNING_COMBINATIONS /\ line_of m board line.


(** The cell at [i] holds a mark. *)
Definition occupied (board : Board) (i : nat) : Prop :=
  exists m, Js.get board i = Some (Some m).

(** The cell at [i] is empty ([null]). *)
Definition empty_at (board : Board) (i : nat) : Prop :=
  Js.get board i = Some None.

(** A board as the data model has it: nine cells, each a [Player]. *)
Definition nine_cells (board : Board) : Prop :=
  length board = 9 /\ forall i, i < 9 -> exists p, Js.get board i = Some p.

(** No cell holds a mark. *)
Definition no_moves_played (board : Board) : Prop :=
  Forall (fun s => s = Val None) board.

(** [scores[m]] *)
Definition wins (m : Mark) (sc : Scores) : nat :=
  match m with X => scores_X sc | O => scores_O sc end.

(** No count went down. *)
Definition scores_le (a b : Scores) : Prop :=
  scores_X a <= scores_X b /\ scores_O a <= scores_O b
  /\ scores_draws a <= scores_draws b.

(** A sequence of [makeMove] calls. *)
Definition play (moves : list (nat * Mark)) (g : GameState) : GameState :=
  fold_left (fun s im => makeMove (fst im) (Some (snd im)) s) moves g.

(** At least one move has been played on the board. *)
Definition moves_played (board : Board) : Prop :=
  exists i, occupied board i.

(** The world after the player-vs-player game X@0, O@4, X@1, O@8, X@2. *)
Definition wonRoundWorld : World :=
  {| gameState :=
       {| board := [Val (Some X); Val (Some X); Val (Some X);
                    Val None; Val (Some O); Val None;
                    Val None; Val None; Val (Some O)];
          currentPlayer := Some X;
          status := won;
          winner := Some X;
          winningCells := [0; 1; 2];
          scores := {| scores_X := 1; scores_O := 0; scores_draws := 0 |};
          mode := pvp |};
     timeLeft := 10;
     isTimerActive := true |}.

(** Between [before] and [after] exactly the [r]-th empty cell changed, from
    empty to mark [m]. *)
Definition timeout_move_by (m : Mark) (r : nat) (before after : Board) : Prop :=
  exists i,
    nth_error (availableMoves before) r = Some i
    /\ empty_at before i
    /\ Js.get after i = Some (Some m)
    /\ (forall j, j <> i -> Js.get after j = Js.get before j)
    /\ length after = length before.

(** Legal draws and empty cells correspond one to one, so a uniform draw is
    a uniform choice among the empty cells. *)
Definition draw_is_uniform (board : Board) : Prop :=
  (forall r, r < length (availableMoves board) ->
             exists i, nth_error (availableMoves board) r = Some i
                       /\ empty_at board i)
  /\ (forall i, empty_at board i ->
                exists r, r < length (availableMoves board)
                          /\ nth_error (availableMoves board) r = Some i
                          /\ forall r', nth_error (availableMoves board) r'
                                        = Some i -> r' = r).

(** The world in which the first countdown of a session is about to expire. *)
Definition firstCountdownOver : World :=
  {| gameState := INITIAL_STATE; timeLeft := 1; isTimerActive := true |}.

(** Placing [m] at the empty cell [i] makes the detector report [m]. *)
Definition wins_now (m : Mark) (board : Board) (i : nat) : Prop :=
  empty_at board i
  /\ fst (checkWinner (Js.set (Js.spread board) i (Val (Some m)))) = Some m.

(** [r] can be the value of the draw [getBestMove] makes on [board]: below
    the number of empty corners when there is one, below the number of
    empty cells otherwise. *)
Definition legal_draw (r : nat) (board : Board) : Prop :=
  r < length (emptyCorners board)
  \/ (emptyCorners board = [] /\ r < length (availableMoves board)).

(** The selector's rules in the order the specification lists them: [i] is
    chosen by the first rule that applies. *)
Inductive selected (board : Board) (i : nat) : Prop :=
  | by_win_now :
      wins_now O board i -> selected board i
  | by_block :
      (forall j, ~ wins_now O board j) ->
      wins_now X board i -> selected board i
  | by_center :
      (forall j, ~ wins_now O board j) ->
      (forall j, ~ wins_now X board j) ->
      empty_at board 4 -> i = 4 -> selected board i
  | by_corner :
      (forall j, ~ wins_now O board j) ->
      (forall j, ~ wins_now X board j) ->
      ~ empty_at board 4 ->
      In i [0; 2; 6; 8] -> empty_at board i -> selected board i
  | by_fallback :
      (forall j, ~ wins_now O board j) ->
      (forall j, ~ wins_now X board j) ->
      ~ empty_at board 4 ->
      (forall c, In c [0; 2; 6; 8] -> ~ empty_at board c) ->
      empty_at board i -> selected board i.

(** What a round never breaks: while it is being played no line is
    complete, and at no time do both marks own a line. *)
Definition round_invariant (g : GameState) : Prop :=
  (status g = playing -> forall m, ~ has_triple m (board g))
  /\ ~ (has_triple X (board g) /\ has_triple O (board g)).

(** A round that is being played has an empty cell left. *)
Definition has_room (g : GameState) : Prop :=
  status g = playing -> exists j, empty_at (board g) j.

(** ** Rendering *)

(** The condition under which the status line renders the [Timer]. *)
Definition timerShown (g : GameState) : bool :=
  is_playing (status g)
  && (is_pvp (mode g)
      || (is_pve (mode g) && is_player (currentPlayer g) (Some X))).

(** [isWinning={gameState.winningCells.includes(index)}] *)
Definition isWinning (g : GameState) (index : nat) : bool :=
  existsb (Nat.eqb index) (winningCells g).

(** ** Vocabulary of the further properties *)

(** Which event may play mark [p] at cell [i] of game [g]. *)
Inductive engine_move (g : GameState) (i : nat) (p : Player) : Event -> Prop :=
  | move_by_click :
      p = currentPlayer g ->
      (mode g = pve -> currentPlayer g = Some X) ->
      engine_move g i p (CellClicked i)
  | move_by_human_timeout r :
      mode g = pve -> currentPlayer g = Some X -> p = Some O ->
      nth_error (availableMoves (board g)) r = Some i ->
      engine_move g i p (TimerFired r)
  | move_by_pvp_timeout r :
      mode g = pvp ->
      p = (if is_player (currentPlayer g) (Some X) then Some O else Some X) ->
      nth_error (availableMoves (board g)) r = Some i ->
      engine_move g i p (TimerFired r)
  | move_by_ai r :
      mode g = pve -> currentPlayer g = Some O -> p = Some O ->
      getBestMove r (board g) = Some i ->
      engine_move g i p (AiDelayElapsed r).

(** The board and turn of a world the component can show. *)
Definition well_formed (w : World) : Prop :=
  length (board (gameState w)) = 9
  /\ Forall (fun s => exists p, s = Val p) (board (gameState w))
  /\ (exists m, currentPlayer (gameState w) = Some m)
  /\ 1 <= timeLeft w <= 10.

(** Status, winner and winning line agree with the board. *)
Definition consistent (g : GameState) : Prop :=
  match status g with
  | playing =>
      winner g = None /\ winningCells g = []
      /\ (forall m, ~ has_triple m (board g))
      /\ (exists j, empty_at (board g) j)
  | won =>
      exists m, winner g = Some m
                /\ checkWinner (board g) = (Some m, winningCells g)
  | draw =>
      winner g = None /\ winningCells g = []
      /\ (forall m, ~ has_triple m (board g))
      /\ (forall j, ~ empty_at (board g) j)
  end.

Definition scores_total (sc : Scores) : nat :=
  scores_X sc + scores_O sc + scores_draws sc.

(** The transition from [g] to [g'] ended a round. *)
Definition round_ended (g g' : GameState) : bool :=
  is_playing (status g) && negb (is_playing (status g')).

(** Rounds that ended along a run of events since the scores were last
    reset, counting on from [acc]. *)
Fixpoint rounds_completed (es : list Event) (w : World) (acc : nat)
  : option nat :=
  match es with
  | [] => Some acc
  | e :: rest =>
      match step e w with
      | Some w' =>
          rounds_completed rest w'
            (match e with
             | ResetScoresClicked => 0
             | _ => acc + (if round_ended (gameState w) (gameState w')
                           then 1 else 0)
             end)
      | None => None
      end
  end.

(** Number of cells holding mark [m]. *)
Definition count_mark (m : Mark) (board : Board) : nat :=
  length (filter (fun s => match s with
                           | Val (Some m') =>
                               if Mark_eq_dec m m' then true else false
                           | _ => false
                           end) board).

(** In [pve] mode the human is never more than one mark ahead, and not
    ahead at all when it is the human's turn. *)
Definition human_waits_for_ai (g : GameState) : Prop :=
  mode g = pve ->
  count_mark X (board g) <= count_mark O (board g) + 1
  /\ (status g = playing -> currentPlayer g = Some X ->
      count_mark X (board g) <= count_mark O (board g)).
(** * Properties *)

(** ** Array reads and writes *)

Lemma get_spread (arr : Board) (i : nat) :
  Js.get (Js.spread arr) i = Js.get arr i.
Proof.
  unfold Js.get, Js.spread. rewrite nth_error_map.
  destruct (nth_error arr i) as [[| |p]|]; reflexivity.
Qed.

Lemma length_spread (arr : Board) : length (Js.spread arr) = length arr.
Proof. apply length_map. Qed.

Lemma length_replace (arr : Board) (i : nat) (v : Slot) :
  length (Js.replace arr i v) = length arr.
Proof.
  revert i. induction arr as [|h t IH]; intros [|i]; simpl; auto.
Qed.

Lemma nth_error_replace_same (arr : Board) (i : nat) (v : Slot) :
  i < length arr -> nth_error (Js.replace arr i v) i = Some v.
Proof.
  revert i. induction arr as [|h t IH]; intros [|i] Hi; simpl in *;
    try lia; auto. apply IH. lia.
Qed.

Lemma nth_error_replace_other (arr : Board) (i j : nat) (v : Slot) :
  i <> j -> nth_error (Js.replace arr i v) j = nth_error arr j.
Proof.
  revert i j. induction arr as [|h t IH]; intros [|i] [|j] Hij; simpl;
    try congruence; auto.
Qed.

Lemma length_set_in_range (arr : Board) (i : nat) (v : Slot) :
  i < length arr -> length (Js.set arr i v) = length arr.
Proof.
  intros Hi. unfold Js.set.
  destruct (Nat.ltb_spec i (length arr)); [apply length_replace | lia].
Qed.

Lemma get_set_same (arr : Board) (i : nat) (p : Player) :
  Js.get (Js.set arr i (Val p)) i = Some p.
Proof.
  unfold Js.get, Js.set. destruct (Nat.ltb_spec i (length arr)) as [Hi|Hi].
  - rewrite nth_error_replace_same by assumption. reflexivity.
  - rewrite nth_error_app2 by assumption.
    rewrite nth_error_app2 by (rewrite repeat_length; lia).
    rewrite repeat_length, Nat.sub_diag. reflexivity.
Qed.

Lemma get_set_other (arr : Board) (i j : nat) (v : Slot) :
  i <> j -> Js.get (Js.set arr i v) j = Js.get arr j.
Proof.
  intros Hij. unfold Js.get, Js.set.
  destruct (Nat.ltb_spec i (length arr)) as [Hi|Hi].
  - rewrite nth_error_replace_other by assumption. reflexivity.
  - destruct (Nat.lt_ge_cases j (length arr)) as [Hj|Hj].
    + rewrite nth_error_app1 by assumption. reflexivity.
    + rewrite nth_error_app2 by assumption.
      replace (nth_error arr j) with (@None Slot)
        by (symmetry; apply nth_error_None; assumption).
      destruct (Nat.lt_ge_cases (j - length arr) (i - length arr)) as [Hk|Hk].
      * rewrite nth_error_app1 by (rewrite repeat_length; assumption).
        rewrite nth_error_repeat by assumption. reflexivity.
      * rewrite nth_error_app2 by (rewrite repeat_length; assumption).
        rewrite repeat_length.
        destruct (j - length arr - (i - length arr)) as [|k] eqn:Hd;
          [lia|]. simpl. destruct k; reflexivity.
Qed.

(** The board a move writes: every read is as before, except at [index]. *)
Lemma get_newBoard_same (arr : Board) (index : nat) (p : Player) :
  Js.get (Js.set (Js.spread arr) index (Val p)) index = Some p.
Proof. apply get_set_same. Qed.

Lemma get_newBoard_other (arr : Board) (index j : nat) (v : Slot) :
  index <> j -> Js.get (Js.set (Js.spread arr) index v) j = Js.get arr j.
Proof. intros H. rewrite get_set_other by assumption. apply get_spread. Qed.

Lemma get_is_null_lt (arr : Board) (i : nat) :
  Js.get arr i = Some None -> i < length arr.
Proof.
  unfold Js.get. intros H. apply nth_error_Some.
  destruct (nth_error arr i); [discriminate | discriminate].
Qed.

(** ** Triples *)

Lemma strict_eq_true (a b : option Player) :
  Js.strict_eq a b = true <-> a = b.
Proof.
  destruct a as [p|], b as [q|]; simpl; split; intros H;
    try discriminate; try reflexivity.
  - destruct (Player_eq_dec p q); [congruence | discriminate].
  - destruct (Player_eq_dec p q); [reflexivity | congruence].
Qed.

Lemma line_test_true (board : Board) (a b c : nat) :
  Js.truthy (Js.get board a)
  && Js.strict_eq (Js.get board a) (Js.get board b)
  && Js.strict_eq (Js.get board a) (Js.get board c) = true
  <-> exists m, Js.get board a = Some (Some m)
             /\ Js.get board b = Some (Some m)
             /\ Js.get board c = Some (Some m).
Proof.
  rewrite !andb_true_iff, !strict_eq_true. split.
  - intros [[Ht Hb] Hc].
    destruct (Js.get board a) as [[m|]|] eqn:Ha; try discriminate.
    exists m. auto.
  - intros [m [Ha [Hb Hc]]]. rewrite Ha, Hb, Hc. auto.
Qed.

Lemma checkWinner_from_some (combos : list (list nat)) (board : Board)
      (w : Mark) (cells : list nat) :
  checkWinner_from combos board = (Some w, cells) ->
  In cells combos /\ line_of w board cells.
Proof.
  induction combos as [|combination rest IH]; simpl; [discriminate|].
  intros H.
  assert (Hrest : checkWinner_from rest board = (Some w, cells) ->
                  (combination = cells \/ In cells rest)
                  /\ line_of w board cells)
    by (intros H'; destruct (IH H'); auto).
  destruct combination as [|a [|b [|c [|d t]]]]; auto.
  destruct (Js.truthy (Js.get board a)
            && Js.strict_eq (Js.get board a) (Js.get board b)
            && Js.strict_eq (Js.get board a) (Js.get board c)) eqn:Ht; auto.
  apply line_test_true in Ht. destruct Ht as [m [Ha [Hb Hc]]].
  rewrite Ha in H. inversion H; subst. split; [left; reflexivity|].
  exists a, b, c. auto.
Qed.

Lemma checkWinner_from_none (combos : list (list nat)) (board : Board)
      (cells : list nat) :
  checkWinner_from combos board = (None, cells) ->
  cells = [] /\ forall line m, In line combos -> ~ line_of m board line.
Proof.
  induction combos as [|combination rest IH]; simpl.
  - intros H. inversion H. split; [reflexivity | intros ? ? []].
  - intros H.
    assert (Hrest : checkWinner_from rest board = (None, cells) ->
                    (forall m, ~ line_of m board combination) ->
                    cells = [] /\
                    forall line m, combination = line \/ In line rest ->
                                   ~ line_of m board line).
    { intros H' Hc. destruct (IH H') as [E Hn]. split; [assumption|].
      intros line m [<-|Hin]; [apply Hc | apply Hn; assumption]. }
    destruct combination as [|a [|b [|c [|d t]]]];
      try (apply Hrest; [assumption|];
           intros m (a' & b' & c' & E & _); discriminate).
    destruct (Js.truthy (Js.get board a)
              && Js.strict_eq (Js.get board a) (Js.get board b)
              && Js.strict_eq (Js.get board a) (Js.get board c)) eqn:Ht.
    + apply line_test_true in Ht. destruct Ht as [m [Ha _]].
      rewrite Ha in H. discriminate.
    + apply Hrest; [assumption|].
      intros m (a' & b' & c' & E & Ha & Hb & Hc). inversion E; subst.
      assert (Hyes : Js.truthy (Js.get board a')
                     && Js.strict_eq (Js.get board a') (Js.get board b')
                     && Js.strict_eq (Js.get board a') (Js.get board c') = true)
        by (apply line_test_true; exists m; auto).
      congruence.
Qed.

(** The detector names a mark exactly when that mark owns a combination. *)
Lemma checkWinner_some (board : Board) (w : Mark) (cells : list nat) :
  checkWinner board = (Some w, cells) ->
  In cells WINNING_COMBINATIONS /\ line_of w board cells.
Proof. apply checkWinner_from_some. Qed.

Lemma checkWinner_none (board : Board) (cells : list nat) :
  checkWinner board = (None, cells) ->
  cells = [] /\ forall m, ~ has_triple m board.
Proof.
  intros H. destruct (checkWinner_from_none _ _ _ H) as [E Hn].
  split; [assumption|]. intros m [line [Hin Hl]]. exact (Hn line m Hin Hl).
Qed.

Lemma no_triple_checkWinner (board : Board) :
  (forall m, ~ has_triple m board) -> checkWinner board = (None, []).
Proof.
  intros Hn. destruct (checkWinner board) as [[w|] cells] eqn:E.
  - destruct (checkWinner_some _ _ _ E) as [Hin Hl].
    exfalso. apply (Hn w). exists cells. auto.
  - destruct (checkWinner_none _ _ E) as [-> _]. reflexivity.
Qed.

(** A line completed on the board a move writes either was already complete
    or goes through the written cell and carries the written mark. *)
Lemma line_of_newBoard (board : Board) (index : nat) (player : Player)
      (m : Mark) (line : list nat) :
  line_of m (Js.set (Js.spread board) index (Val player)) line ->
  line_of m board line \/ (In index line /\ player = Some m).
Proof.
  intros (a & b & c & -> & Ha & Hb & Hc).
  destruct (Nat.eq_dec index a) as [->|Na].
  { right. rewrite get_newBoard_same in Ha. split; [simpl; auto | congruence]. }
  destruct (Nat.eq_dec index b) as [->|Nb].
  { right. rewrite get_newBoard_same in Hb. split; [simpl; auto | congruence]. }
  destruct (Nat.eq_dec index c) as [->|Nc].
  { right. rewrite get_newBoard_same in Hc. split; [simpl; auto | congruence]. }
  left. rewrite get_newBoard_other in Ha, Hb, Hc by assumption.
  exists a, b, c. auto.
Qed.

Lemma has_triple_newBoard (board : Board) (index : nat) (player : Player)
      (m : Mark) :
  (forall m', ~ has_triple m' board) ->
  has_triple m (Js.set (Js.spread board) index (Val player)) ->
  player = Some m.
Proof.
  intros Hn [line [Hin Hl]].
  destruct (line_of_newBoard _ _ _ _ _ Hl) as [Hold|[_ E]]; [|assumption].
  exfalso. apply (Hn m). exists line. auto.
Qed.

Lemma get_past_end (arr : Board) (i : nat) :
  length arr <= i -> Js.get arr i = None.
Proof.
  intros H. unfold Js.get.
  replace (nth_error arr i) with (@None Slot)
    by (symmetry; apply nth_error_None; assumption).
  reflexivity.
Qed.

Lemma every_not_null_iff (arr : Board) :
  Js.every_not_null arr = true <-> forall i, Js.get arr i <> Some None.
Proof.
  unfold Js.every_not_null. induction arr as [|h t IH]; simpl.
  - split; [|reflexivity]. intros _ [|i]; discriminate.
  - rewrite andb_true_iff, IH. split.
    + intros [Hh Ht] [|i]; [|apply Ht].
      unfold Js.get; simpl. destruct h as [| |[m|]]; discriminate.
    + intros H. split; [|intros i; apply (H (S i))].
      specialize (H 0). unfold Js.get in H.
      destruct h as [| |[m|]]; simpl in *; try reflexivity.
      exfalso. apply H. reflexivity.
Qed.

Lemma some_not_null_of_mark (arr : Board) (i : nat) (m : Mark) :
  Js.get arr i = Some (Some m) -> Js.some_not_null arr = true.
Proof.
  unfold Js.some_not_null, Js.get. intros H. apply existsb_exists.
  destruct (nth_error arr i) as [s|] eqn:E; [|discriminate].
  exists s. split; [eapply nth_error_In; eassumption|].
  destruct s as [| |[m'|]]; try discriminate; reflexivity.
Qed.

Lemma some_not_null_no_moves (arr : Board) :
  no_moves_played arr -> Js.some_not_null arr = false.
Proof.
  unfold no_moves_played, Js.some_not_null.
  induction 1 as [|s t Hs _ IH]; simpl; [reflexivity|].
  rewrite Hs, IH. reflexivity.
Qed.

(** ** The guard of [makeMove] *)

Lemma makeMove_accepts (index : nat) (player : Player) (prev : GameState) :
  status prev = playing ->
  Js.truthy (Js.get (board prev) index) = false ->
  makeMove index player prev =
  let newBoard := Js.set (Js.spread (board prev)) index (Val player) in
  match checkWinner newBoard with
  | (Some w, cells) =>
      {| board := newBoard; currentPlayer := currentPlayer prev;
         status := won; winner := Some w; winningCells := cells;
         scores := incr_winner w (scores prev); mode := mode prev |}
  | (None, _) =>
      if Js.every_not_null newBoard then
        {| board := newBoard; currentPlayer := currentPlayer prev;
           status := draw; winner := winner prev;
           winningCells := winningCells prev;
           scores := incr_draws (scores prev); mode := mode prev |}
      else
        {| board := newBoard;
           currentPlayer :=
             (if Player_eq_dec player (Some X) then Some O else Some X);
           status := status prev; winner := winner prev;
           winningCells := winningCells prev;
           scores := scores prev; mode := mode prev |}
  end.
Proof.
  intros Hs Ht. unfold makeMove. rewrite Ht, Hs. reflexivity.
Qed.

(** C3: if the cell at [index] is occupied or the status is not [playing],
    [makeMove] returns its input state, every field untouched. *)
Theorem makeMove_rejected_unchanged
        (s : GameState) (index : nat) (player : Player) :
  occupied (board s) index \/ status s <> playing ->
  makeMove index player s = s.
Proof.
  intros [[m Hm] | Hs]; unfold makeMove.
  - rewrite Hm. reflexivity.
  - destruct (status s); try congruence;
      rewrite orb_true_r; reflexivity.
Qed.

Lemma makeMove_rejected_unchanged_witness :
  makeMove 0 (Some O) (play [(0, X)] INITIAL_STATE) = play [(0, X)] INITIAL_STATE
  /\ makeMove 3 (Some O)
       (play [(0, X); (4, O); (1, X); (8, O); (2, X)] INITIAL_STATE)
     = play [(0, X); (4, O); (1, X); (8, O); (2, X)] INITIAL_STATE.
Proof.
  split.
  - apply makeMove_rejected_unchanged. left. exists X. vm_compute. reflexivity.
  - apply makeMove_rejected_unchanged. right. vm_compute. discriminate.
Defined.

(** ** Outcome of an accepted move *)

Lemma wins_incr_winner (w : Mark) (sc : Scores) :
  wins w (incr_winner w sc) = S (wins w sc)
  /\ wins (other w) (incr_winner w sc) = wins (other w) sc
  /\ scores_draws (incr_winner w sc) = scores_draws sc.
Proof. destruct w; simpl; auto. Qed.

Lemma empty_not_truthy (arr : Board) (i : nat) :
  empty_at arr i -> Js.truthy (Js.get arr i) = false.
Proof. unfold empty_at. intros ->. reflexivity. Qed.

(** C4: in a [playing] state, when the detector reports a winner on the
    board obtained by writing the player's mark into an empty cell,
    [makeMove] stores that board, sets the status to [won], the winner and
    the winning line to what the detector reported, and adds one to that
    winner's count and to nothing else.  The reported line is one of the
    eight combinations and is entirely the winner's; the winner is the mover
    whenever the board had no complete line before.  The game
    X@0, O@4, X@1, O@8, X@2 ends won by X along [0; 1; 2] with X's count
    going from 0 to 1. *)
Theorem makeMove_win :
  (forall (s : GameState) (index : nat) (player w : Mark) (cells : list nat),
      status s = playing ->
      empty_at (board s) index ->
      checkWinner (Js.set (Js.spread (board s)) index (Val (Some player)))
      = (Some w, cells) ->
      let s' := makeMove index (Some player) s in
      board s' = Js.set (Js.spread (board s)) index (Val (Some player))
      /\ status s' = won
      /\ winner s' = Some w
      /\ winningCells s' = cells
      /\ In cells WINNING_COMBINATIONS
      /\ line_of w (board s') cells
      /\ wins w (scores s') = wins w (scores s) + 1
      /\ wins (other w) (scores s') = wins (other w) (scores s)
      /\ scores_draws (scores s') = scores_draws (scores s)
      /\ ((forall m, ~ has_triple m (board s)) -> w = player))
  /\ (let before := play [(0, X); (4, O); (1, X); (8, O)] INITIAL_STATE in
      let after := makeMove 2 (Some X) before in
      after = play [(0, X); (4, O); (1, X); (8, O); (2, X)] INITIAL_STATE
      /\ status before = playing
      /\ checkWinner (board after) = (Some X, [0; 1; 2])
      /\ winner after = Some X
      /\ winningCells after = [0; 1; 2]
      /\ status after = won
      /\ scores_X (scores before) = 0
      /\ scores_X (scores after) = 1).
Proof.
  split.
  - intros s index player w cells Hs He Hw s'. subst s'.
    rewrite (makeMove_accepts _ _ _ Hs (empty_not_truthy _ _ He)).
    cbv zeta. rewrite Hw. cbn [board status winner winningCells scores].
    destruct (checkWinner_some _ _ _ Hw) as [Hin Hl].
    destruct (wins_incr_winner w (scores s)) as [H1 [H2 H3]].
    repeat split; auto.
    + rewrite H1. lia.
    + intros Hn.
      assert (E : Some player = Some w).
      { eapply has_triple_newBoard; [exact Hn|].
        exists cells. split; eassumption. }
      congruence.
  - vm_compute. repeat split; reflexivity.
Qed.

Lemma makeMove_win_witness :
  let s := play [(0, X); (4, O); (1, X); (8, O)] INITIAL_STATE in
  let s' := makeMove 2 (Some X) s in
  status s' = won /\ winner s' = Some X /\ winningCells s' = [0; 1; 2]
  /\ wins X (scores s') = wins X (scores s) + 1.
Proof.
  intros s s'.
  assert (Hs : status s = playing) by (vm_compute; reflexivity).
  assert (He : empty_at (board s) 2) by (vm_compute; reflexivity).
  assert (Hw : checkWinner (Js.set (Js.spread (board s)) 2 (Val (Some X)))
               = (Some X, [0; 1; 2])) by (vm_compute; reflexivity).
  destruct (proj1 makeMove_win s 2 X X [0; 1; 2] Hs He Hw)
    as (_ & H1 & H2 & H3 & _ & _ & H4 & _).
  repeat split; assumption.
Defined.

Lemma nine_cells_get_newBoard (arr : Board) (index i : nat) (p : Player) :
  nine_cells arr -> i < 9 ->
  exists q, Js.get (Js.set (Js.spread arr) index (Val p)) i = Some q.
Proof.
  intros [_ Hc] Hi. destruct (Nat.eq_dec index i) as [->|Hne].
  - exists p. apply get_newBoard_same.
  - rewrite get_newBoard_other by assumption. auto.
Qed.

Lemma every_not_null_newBoard (arr : Board) (index : nat) (p : Player) :
  nine_cells arr -> empty_at arr index ->
  let newBoard := Js.set (Js.spread arr) index (Val p) in
  Js.every_not_null newBoard = true <-> forall i, i < 9 -> occupied newBoard i.
Proof.
  intros Hn He newBoard. rewrite every_not_null_iff. split.
  - intros H i Hi.
    destruct (nine_cells_get_newBoard arr index i p Hn Hi) as [[m|] Hq].
    + exists m. exact Hq.
    + exfalso. exact (H i Hq).
  - intros H i Hnull. destruct (Nat.lt_ge_cases i 9) as [Hi|Hi].
    + destruct (H i Hi) as [m Hm]. unfold newBoard in *. congruence.
    + assert (Hlen : length newBoard = 9).
      { unfold newBoard. destruct Hn as [Hlen _].
        rewrite length_set_in_range; rewrite length_spread;
          [assumption|]. apply get_is_null_lt. exact He. }
      rewrite get_past_end in Hnull by lia. discriminate.
Qed.

(** C5: in a [playing] state on a nine-cell board, when writing the player's
    mark into an empty cell completes no line, [makeMove] stores the new
    board and: if all nine cells are then occupied the status becomes
    [draw] and only the draws count grows, by one; otherwise the status
    stays [playing], the scores are untouched and the turn goes to the mark
    other than the one just placed. *)
Theorem makeMove_no_win
        (s : GameState) (index : nat) (player : Mark) :
  status s = playing ->
  nine_cells (board s) ->
  empty_at (board s) index ->
  let newBoard := Js.set (Js.spread (board s)) index (Val (Some player)) in
  (forall m, ~ has_triple m newBoard) ->
  let s' := makeMove index (Some player) s in
  board s' = newBoard
  /\ mode s' = mode s
  /\ ((forall i, i < 9 -> occupied newBoard i) ->
      status s' = draw
      /\ scores_draws (scores s') = scores_draws (scores s) + 1
      /\ scores_X (scores s') = scores_X (scores s)
      /\ scores_O (scores s') = scores_O (scores s))
  /\ (~ (forall i, i < 9 -> occupied newBoard i) ->
      status s' = playing
      /\ currentPlayer s' = Some (other player)
      /\ scores s' = scores s).
Proof.
  intros Hs Hn He newBoard Hno s'. subst s'.
  rewrite (makeMove_accepts _ _ _ Hs (empty_not_truthy _ _ He)).
  cbv zeta. fold newBoard. rewrite (no_triple_checkWinner _ Hno).
  pose proof (every_not_null_newBoard _ _ (Some player) Hn He) as Hev.
  cbv zeta in Hev. fold newBoard in Hev.
  destruct (Js.every_not_null newBoard);
    cbn [board status scores mode currentPlayer];
    (split; [reflexivity|]); (split; [reflexivity|]); split.
  - intros _. simpl. repeat split; lia.
  - intros Hnot. exfalso. apply Hnot. apply Hev. reflexivity.
  - intros Hall. apply Hev in Hall. discriminate.
  - intros _. repeat split; try assumption. destruct player; reflexivity.
Qed.

Lemma nine_cells_intro (p0 p1 p2 p3 p4 p5 p6 p7 p8 : Player) :
  nine_cells [Val p0; Val p1; Val p2; Val p3; Val p4;
              Val p5; Val p6; Val p7; Val p8].
Proof.
  split; [reflexivity|]. intros i Hi.
  do 9 (destruct i as [|i]; [eexists; reflexivity|]). lia.
Qed.

Lemma no_triple_by_detector (arr : Board) :
  checkWinner arr = (None, []) -> forall m, ~ has_triple m arr.
Proof. intros H. exact (proj2 (checkWinner_none _ _ H)). Qed.

Lemma makeMove_no_win_witness :
  (let s := play [(0, X); (1, O); (2, X); (4, O); (3, X); (5, O); (7, X); (6, O)]
                 INITIAL_STATE in
   let s' := makeMove 8 (Some X) s in
   status s' = draw
   /\ scores_draws (scores s') = scores_draws (scores s) + 1)
  /\ (let s' := makeMove 4 (Some X) INITIAL_STATE in
      status s' = playing /\ currentPlayer s' = Some O).
Proof.
  split.
  - intros s s'.
    assert (Hb : board s = [Val (Some X); Val (Some O); Val (Some X);
                            Val (Some X); Val (Some O); Val (Some O);
                            Val (Some O); Val (Some X); Val None])
      by (vm_compute; reflexivity).
    assert (Hs : status s = playing) by (vm_compute; reflexivity).
    assert (Hn : nine_cells (board s)) by (rewrite Hb; apply nine_cells_intro).
    assert (He : empty_at (board s) 8) by (vm_compute; reflexivity).
    assert (Hno : forall m, ~ has_triple m
                    (Js.set (Js.spread (board s)) 8 (Val (Some X))))
      by (apply no_triple_by_detector; vm_compute; reflexivity).
    destruct (makeMove_no_win s 8 X Hs Hn He Hno) as (_ & _ & Hdraw & _).
    assert (Hall : forall i, i < 9 ->
                     occupied (Js.set (Js.spread (board s)) 8 (Val (Some X))) i).
    { intros i Hi. rewrite Hb.
      do 9 (destruct i as [|i]; [eexists; reflexivity|]). lia. }
    destruct (Hdraw Hall) as (H1 & H2 & _). split; assumption.
  - intros s'.
    assert (Hs : status INITIAL_STATE = playing) by reflexivity.
    assert (Hn : nine_cells (board INITIAL_STATE)) by apply nine_cells_intro.
    assert (He : empty_at (board INITIAL_STATE) 4) by reflexivity.
    assert (Hno : forall m, ~ has_triple m
                    (Js.set (Js.spread (board INITIAL_STATE)) 4 (Val (Some X))))
      by (apply no_triple_by_detector; vm_compute; reflexivity).
    destruct (makeMove_no_win INITIAL_STATE 4 X Hs Hn He Hno) as (_ & _ & _ & Hgo).
    assert (Hnot : ~ (forall i, i < 9 ->
                        occupied (Js.set (Js.spread (board INITIAL_STATE)) 4
                                         (Val (Some X))) i)).
    { intros H. destruct (H 0) as [m Hm]; [lia|]. discriminate Hm. }
    destruct (Hgo Hnot) as (H1 & H2 & _). split; assumption.
Defined.

(** ** Session start and controller actions *)

(** C10: the component starts with nine empty cells, X to move, status
    [playing], no winner, all three counts at zero and mode [pve]
    (player against the AI), a full countdown of 10 and the timer active. *)
Theorem initial_state_defaults :
  board (gameState initialWorld)
  = [Val None; Val None; Val None; Val None; Val None;
     Val None; Val None; Val None; Val None]
  /\ currentPlayer (gameState initialWorld) = Some X
  /\ status (gameState initialWorld) = playing
  /\ winner (gameState initialWorld) = None
  /\ winningCells (gameState initialWorld) = []
  /\ scores (gameState initialWorld)
     = {| scores_X := 0; scores_O := 0; scores_draws := 0 |}
  /\ mode (gameState initialWorld) = pve
  /\ timeLeft initialWorld = 10
  /\ isTimerActive initialWorld = true.
Proof. repeat split. Qed.

Lemma scores_le_refl (sc : Scores) : scores_le sc sc.
Proof. unfold scores_le. auto. Qed.

Lemma makeMove_scores_le (index : nat) (player : Player) (g : GameState) :
  scores_le (scores g) (scores (makeMove index player g)).
Proof.
  unfold makeMove.
  destruct (Js.truthy (Js.get (board g) index) || negb (is_playing (status g)));
    [apply scores_le_refl|].
  cbv zeta.
  destruct (checkWinner (Js.set (Js.spread (board g)) index (Val player)))
    as [[w|] cells].
  - destruct w; unfold scores_le; simpl; repeat split; lia.
  - destruct (Js.every_not_null
                (Js.set (Js.spread (board g)) index (Val player)));
      unfold scores_le; simpl; repeat split; lia.
Qed.

Lemma gameState_afterRender (before : GameState) (w : World) :
  gameState (afterRender before w) = gameState w.
Proof.
  unfold afterRender. cbv zeta.
  repeat match goal with
         | |- context [if ?c then _ else _] => destruct c
         end; reflexivity.
Qed.

Lemma randomMoveFor_cases (r : nat) (player : Player) (g g' : GameState) :
  randomMoveFor r player g = Some g' ->
  g' = g \/ exists i, g' = makeMove i player g.
Proof.
  unfold randomMoveFor. cbv zeta.
  destruct (0 <? length (availableMoves (board g))).
  - destruct (nth_error (availableMoves (board g)) r) as [i|];
      [|discriminate]. intros H. inversion H. right. exists i. reflexivity.
  - intros H. inversion H. left. reflexivity.
Qed.

(** What an event can do to the game: leave it, apply one move, or run one
    of the controller actions. *)
Lemma handle_cases (e : Event) (w w' : World) :
  handle e w = Some w' ->
  gameState w' = gameState w
  \/ (exists i p, gameState w' = makeMove i p (gameState w))
  \/ (e = NewGameClicked /\ gameState w' = resetGame (gameState w))
  \/ (e = ResetScoresClicked /\ gameState w' = resetScores (gameState w))
  \/ (exists m, e = ModeClicked m
                /\ modeButtonDisabled (gameState w) = false
                /\ gameState w' = changeGameMode m (gameState w)).
Proof.
  destruct e as [index|r|r| | |m]; simpl; intros H.
  - inversion H. unfold clickCell.
    destruct (cellDisabled (gameState w) index); [left; reflexivity|].
    right; left. exists index, (currentPlayer (gameState w)). reflexivity.
  - destruct (timerRunning w); [|discriminate]. unfold tick in H.
    destruct (timeLeft w <=? 1).
    + destruct (onTimeUp r (gameState w)) as [g|] eqn:E; [|discriminate].
      inversion H. simpl. unfold onTimeUp in E.
      destruct (is_pve (mode (gameState w))
                && is_player (currentPlayer (gameState w)) (Some X)).
      * destruct (randomMoveFor_cases _ _ _ _ E) as [->|[i ->]];
          [left; reflexivity | right; left; eexists _, _; reflexivity].
      * destruct (is_pvp (mode (gameState w))).
        -- destruct (randomMoveFor_cases _ _ _ _ E) as [->|[i ->]];
             [left; reflexivity | right; left; eexists _, _; reflexivity].
        -- inversion E. left. reflexivity.
    + inversion H. left. reflexivity.
  - destruct (aiToMove (gameState w)); [|discriminate]. unfold aiMove in H.
    destruct (getBestMove r (board (gameState w))) as [i|]; [|discriminate].
    inversion H. right; left. eexists _, _. reflexivity.
  - inversion H. right; right; left. split; reflexivity.
  - inversion H. right; right; right; left. split; reflexivity.
  - inversion H. unfold clickModeButton.
    destruct (modeButtonDisabled (gameState w)) eqn:E; [left; reflexivity|].
    do 4 right. exists m. repeat split; reflexivity.
Qed.

Lemma step_cases (e : Event) (w w' : World) :
  step e w = Some w' ->
  gameState w' = gameState w
  \/ (exists i p, gameState w' = makeMove i p (gameState w))
  \/ (e = NewGameClicked /\ gameState w' = resetGame (gameState w))
  \/ (e = ResetScoresClicked /\ gameState w' = resetScores (gameState w))
  \/ (exists m, e = ModeClicked m
                /\ modeButtonDisabled (gameState w) = false
                /\ gameState w' = changeGameMode m (gameState w)).
Proof.
  unfold step. destruct (handle e w) as [w1|] eqn:E; [|discriminate].
  intros H. inversion H. rewrite gameState_afterRender.
  apply handle_cases. assumption.
Qed.

(** C8: a new round and a mode change leave the three counts as they were,
    both as state updaters and as whole engine transitions; resetting the
    scores sets them to zero; and no engine transition other than the
    score reset ever lowers a count. *)
Theorem scoreboard_frame :
  (forall g, scores (resetGame g) = scores g)
  /\ (forall m g, scores (changeGameMode m g) = scores g)
  /\ (forall g, scores (resetScores g)
                = {| scores_X := 0; scores_O := 0; scores_draws := 0 |})
  /\ (forall w w', step NewGameClicked w = Some w' ->
                   scores (gameState w') = scores (gameState w))
  /\ (forall m w w', step (ModeClicked m) w = Some w' ->
                     scores (gameState w') = scores (gameState w))
  /\ (forall e w w', step e w = Some w' -> e <> ResetScoresClicked ->
                     scores_le (scores (gameState w)) (scores (gameState w'))).
Proof.
  split; [reflexivity|]. split; [reflexivity|]. split; [reflexivity|].
  split; [|split].
  - intros w w' H.
    destruct (step_cases _ _ _ H)
      as [E|[(i & p & E)|[[_ E]|[[D _]|(m & D & _)]]]];
      try discriminate.
    + rewrite E. reflexivity.
    + unfold step in H. simpl in H. inversion H.
      rewrite gameState_afterRender. reflexivity.
    + rewrite E. reflexivity.
  - intros m w w' H. unfold step in H. simpl in H. inversion H.
    rewrite gameState_afterRender. unfold clickModeButton.
    destruct (modeButtonDisabled (gameState w)); reflexivity.
  - intros e w w' H Hne.
    destruct (step_cases _ _ _ H)
      as [E|[(i & p & E)|[[_ E]|[[D _]|(m & _ & _ & E)]]]]; rewrite ?E.
    + apply scores_le_refl.
    + apply makeMove_scores_le.
    + apply scores_le_refl.
    + contradiction.
    + apply scores_le_refl.
Qed.

Lemma scoreboard_frame_witness :
  let w := mkWorld (play [(0, X); (4, O); (1, X); (8, O); (2, X)] INITIAL_STATE)
                   10 true in
  (exists w', step NewGameClicked w = Some w'
              /\ scores (gameState w') = scores (gameState w)
              /\ scores_X (scores (gameState w')) = 1)
  /\ (exists w', step (ModeClicked pvp) w = Some w'
                 /\ scores (gameState w') = scores (gameState w)
                 /\ mode (gameState w') = pvp)
  /\ (exists w', step (CellClicked 4) initialWorld = Some w'
                 /\ scores_le (scores (gameState initialWorld))
                              (scores (gameState w'))).
Proof.
  intros w. destruct scoreboard_frame as (_ & _ & _ & Hnew & Hmode & Hle).
  split; [|split].
  - eexists. split; [vm_compute; reflexivity|].
    split; [apply (Hnew w); vm_compute; reflexivity | vm_compute; reflexivity].
  - eexists. split; [vm_compute; reflexivity|].
    split; [apply (Hmode pvp w); vm_compute; reflexivity
           | vm_compute; reflexivity].
  - eexists. split; [vm_compute; reflexivity|].
    apply (Hle (CellClicked 4) initialWorld);
      [vm_compute; reflexivity | discriminate].
Defined.

(** ** Mode change *)

(** C2, amended: a click on a mode button leaves the world untouched exactly
    when the round is being played and a move has been made; when the
    status is not [playing] (also with marks on the board) or the board has
    no move on it, the click takes effect: the mode is switched, the round
    is reinitialised with X to move, the scores are kept and the timer is
    restarted. *)
Theorem mode_change_gate (m : GameMode) (w : World) :
  (status (gameState w) = playing ->
   moves_played (board (gameState w)) ->
   clickModeButton m w = w)
  /\ (status (gameState w) <> playing
      \/ no_moves_played (board (gameState w)) ->
      clickModeButton m w = restartTimer (changeGameMode m (gameState w))
      /\ mode (gameState (clickModeButton m w)) = m
      /\ scores (gameState (clickModeButton m w)) = scores (gameState w)
      /\ board (gameState (clickModeButton m w)) = board INITIAL_STATE
      /\ currentPlayer (gameState (clickModeButton m w)) = Some X
      /\ status (gameState (clickModeButton m w)) = playing
      /\ timeLeft (clickModeButton m w) = 10
      /\ isTimerActive (clickModeButton m w) = true).
Proof.
  unfold clickModeButton, modeButtonDisabled. split.
  - intros Hs [i [mk Hi]]. rewrite Hs.
    rewrite (some_not_null_of_mark _ _ _ Hi). reflexivity.
  - intros H.
    assert (E : is_playing (status (gameState w))
                && Js.some_not_null (board (gameState w)) = false).
    { destruct H as [Hs|Hb].
      - destruct (status (gameState w)); [congruence | reflexivity | reflexivity].
      - rewrite (some_not_null_no_moves _ Hb). apply andb_false_r. }
    rewrite E. repeat split.
Qed.

Lemma mode_change_gate_witness :
  (exists w, run [CellClicked 4] initialWorld = Some w
             /\ clickModeButton pvp w = w)
  /\ mode (gameState (clickModeButton pve wonRoundWorld)) = pve
  /\ mode (gameState (clickModeButton pvp initialWorld)) = pvp.
Proof.
  split; [|split].
  - eexists. split; [vm_compute; reflexivity|].
    apply (proj1 (mode_change_gate pvp _)).
    + vm_compute. reflexivity.
    + exists 4, X. vm_compute. reflexivity.
  - apply (proj2 (mode_change_gate pve wonRoundWorld)).
    left. simpl. discriminate.
  - apply (proj2 (mode_change_gate pvp initialWorld)).
    right. repeat constructor.
Defined.

(** C2 as stated fails: [wonRoundWorld] is reached by playing a round to
    its end, its board has moves on it, and a click on a mode button is
    not rejected there. *)
Lemma mode_change_after_round_end :
  run [ModeClicked pvp; CellClicked 0; CellClicked 4; CellClicked 1;
       CellClicked 8; CellClicked 2] initialWorld = Some wonRoundWorld
  /\ moves_played (board (gameState wonRoundWorld))
  /\ mode (gameState (clickModeButton pve wonRoundWorld)) = pve
  /\ ~ (moves_played (board (gameState wonRoundWorld)) ->
        clickModeButton pve wonRoundWorld = wonRoundWorld).
Proof.
  assert (Hm : moves_played (board (gameState wonRoundWorld)))
    by (exists 0, X; reflexivity).
  split; [vm_compute; reflexivity|]. split; [exact Hm|].
  split; [reflexivity|].
  intros H. specialize (H Hm). discriminate H.
Qed.

(** ** Empty cells *)

Lemma null_indices_from (k : nat) (arr : Board) (i : nat) :
  In i (flat_map (fun ic : nat * Slot =>
                    match snd ic with Val None => [fst ic] | _ => [] end)
                 (combine (seq k (length arr)) arr))
  <-> k <= i /\ nth_error arr (i - k) = Some (Val None).
Proof.
  revert k. induction arr as [|s t IH]; intros k; simpl.
  - split; [intros [] | intros [_ H]; destruct (i - k); discriminate].
  - rewrite in_app_iff, IH. split.
    + intros [H|[Hk Hn]].
      * destruct s as [| |[m|]]; simpl in H; try contradiction.
        destruct H as [<-|[]]. rewrite Nat.sub_diag. auto.
      * split; [lia|]. replace (i - k) with (S (i - S k)) by lia. exact Hn.
    + intros [Hk Hn]. destruct (Nat.eq_dec i k) as [->|Hne].
      * left. rewrite Nat.sub_diag in Hn. simpl in Hn. inversion Hn.
        simpl. auto.
      * right. split; [lia|].
        replace (i - k) with (S (i - S k)) in Hn by lia. exact Hn.
Qed.

Lemma null_indices_NoDup (k : nat) (arr : Board) :
  NoDup (flat_map (fun ic : nat * Slot =>
                     match snd ic with Val None => [fst ic] | _ => [] end)
                  (combine (seq k (length arr)) arr)).
Proof.
  revert k. induction arr as [|s t IH]; intros k; simpl; [constructor|].
  assert (Hk : ~ In k (flat_map (fun ic : nat * Slot =>
                     match snd ic with Val None => [fst ic] | _ => [] end)
                  (combine (seq (S k) (length t)) t)))
    by (rewrite null_indices_from; lia).
  destruct s as [| |[m|]]; simpl; try apply IH.
  constructor; [exact Hk | apply IH].
Qed.

Lemma availableMoves_In (board : Board) (i : nat) :
  In i (availableMoves board) <-> empty_at board i.
Proof.
  unfold availableMoves, Js.null_indices. rewrite null_indices_from.
  rewrite Nat.sub_0_r. unfold empty_at, Js.get. split.
  - intros [_ ->]. reflexivity.
  - intros H. split; [lia|].
    destruct (nth_error board i) as [[| |[m|]]|]; try discriminate.
    reflexivity.
Qed.

Lemma availableMoves_NoDup (board : Board) : NoDup (availableMoves board).
Proof. apply null_indices_NoDup. Qed.

Lemma availableMoves_uniform (board : Board) : draw_is_uniform board.
Proof.
  split.
  - intros r Hr.
    destruct (nth_error (availableMoves board) r) as [i|] eqn:E.
    + exists i. split; [reflexivity|]. apply availableMoves_In.
      eapply nth_error_In. eassumption.
    + apply nth_error_None in E. lia.
  - intros i Hi. apply availableMoves_In in Hi.
    destruct (In_nth_error _ _ Hi) as [r Hr]. exists r.
    assert (Hlt : r < length (availableMoves board))
      by (apply nth_error_Some; congruence).
    split; [exact Hlt|]. split; [exact Hr|].
    intros r' Hr'.
    apply (proj1 (NoDup_nth_error (availableMoves board))
                 (availableMoves_NoDup board)).
    + apply nth_error_Some. congruence.
    + congruence.
Qed.

(** ** Timeouts *)

Lemma makeMove_board (index : nat) (player : Player) (g : GameState) :
  status g = playing -> empty_at (board g) index ->
  board (makeMove index player g)
  = Js.set (Js.spread (board g)) index (Val player).
Proof.
  intros Hs He.
  rewrite (makeMove_accepts _ _ _ Hs (empty_not_truthy _ _ He)). cbv zeta.
  destruct (checkWinner (Js.set (Js.spread (board g)) index (Val player)))
    as [[w|] cells]; [reflexivity|].
  destruct (Js.every_not_null
              (Js.set (Js.spread (board g)) index (Val player)));
    reflexivity.
Qed.

(** After an accepted move by [player] the turn is either where it was (the
    round ended) or with the other mark. *)
Lemma makeMove_turn (index : nat) (player : Mark) (g : GameState) :
  status g = playing -> empty_at (board g) index ->
  (status (makeMove index (Some player) g) <> playing
   /\ currentPlayer (makeMove index (Some player) g) = currentPlayer g)
  \/ (status (makeMove index (Some player) g) = playing
      /\ currentPlayer (makeMove index (Some player) g)
         = Some (other player)).
Proof.
  intros Hs He.
  rewrite (makeMove_accepts _ _ _ Hs (empty_not_truthy _ _ He)). cbv zeta.
  destruct (checkWinner
              (Js.set (Js.spread (board g)) index (Val (Some player))))
    as [[w|] cells].
  - left. simpl. split; [discriminate | reflexivity].
  - destruct (Js.every_not_null
                (Js.set (Js.spread (board g)) index (Val (Some player)))).
    + left. simpl. split; [discriminate | reflexivity].
    + right. simpl. split; [assumption | destruct player; reflexivity].
Qed.

Lemma timeout_move_by_makeMove (r i : nat) (m : Mark) (g : GameState) :
  status g = playing ->
  nth_error (availableMoves (board g)) r = Some i ->
  timeout_move_by m r (board g) (board (makeMove i (Some m) g)).
Proof.
  intros Hs Hr.
  assert (He : empty_at (board g) i)
    by (apply availableMoves_In; eapply nth_error_In; eassumption).
  exists i. rewrite (makeMove_board _ _ _ Hs He).
  split; [exact Hr|]. split; [exact He|].
  split; [apply get_newBoard_same|].
  split; [intros j Hj; apply get_newBoard_other; congruence|].
  rewrite length_set_in_range; rewrite length_spread;
    [reflexivity | apply get_is_null_lt; exact He].
Qed.

Lemma randomMoveFor_legal (r : nat) (player : Player) (g : GameState) :
  r < length (availableMoves (board g)) ->
  exists i, nth_error (availableMoves (board g)) r = Some i
            /\ randomMoveFor r player g = Some (makeMove i player g).
Proof.
  intros Hr. unfold randomMoveFor. cbv zeta.
  destruct (Nat.ltb_spec 0 (length (availableMoves (board g)))); [|lia].
  destruct (nth_error (availableMoves (board g)) r) as [i|] eqn:E.
  - exists i. auto.
  - apply nth_error_None in E. lia.
Qed.

Lemma timeLeft_afterRender_10 (before : GameState) (w : World) :
  timeLeft w = 10 -> timeLeft (afterRender before w) = 10.
Proof.
  intros H. unfold afterRender. cbv zeta.
  repeat match goal with
         | |- context [if ?c then _ else _] => destruct c
         end; simpl; auto.
Qed.

(** What the timer event does when the countdown is at its last second and
    the game hands the move to [mover]. *)
Lemma timer_fires_for (w : World) (r : nat) (mover : Mark) :
  onTimeUp r (gameState w) = randomMoveFor r (Some mover) (gameState w) ->
  status (gameState w) = playing ->
  isTimerActive w = true ->
  timeLeft w <= 1 ->
  r < length (availableMoves (board (gameState w))) ->
  exists w' i,
    step (TimerFired r) w = Some w'
    /\ nth_error (availableMoves (board (gameState w))) r = Some i
    /\ gameState w' = makeMove i (Some mover) (gameState w)
    /\ timeout_move_by mover r (board (gameState w)) (board (gameState w'))
    /\ timeLeft w' = 10.
Proof.
  intros Hon Hs Ha Ht Hr.
  destruct (randomMoveFor_legal r (Some mover) (gameState w) Hr)
    as [i [Hi Hmove]].
  exists (afterRender (gameState w)
            {| gameState := makeMove i (Some mover) (gameState w);
               timeLeft := 10; isTimerActive := isTimerActive w |}), i.
  split.
  - unfold step, handle, timerRunning, tick. rewrite Ha, Hs. simpl.
    destruct (Nat.leb_spec (timeLeft w) 1); [|lia].
    rewrite Hon, Hmove. reflexivity.
  - rewrite gameState_afterRender. simpl.
    split; [exact Hi|]. split; [reflexivity|].
    split; [apply timeout_move_by_makeMove; assumption|].
    apply timeLeft_afterRender_10. reflexivity.
Qed.

(** C7: in [pvp] mode, when the timer fires at the last second of [cur]'s
    turn in a [playing] round with an empty cell, the engine plays
    [availableMoves[r]] for the other mark: exactly that cell changes, from
    empty to the other player's mark; the turn is [cur]'s again; the
    countdown is back at 10.  Legal draws and empty cells correspond one to
    one. *)
Theorem timeout_pvp_moves_for_other (w : World) (cur : Mark) (r : nat) :
  mode (gameState w) = pvp ->
  currentPlayer (gameState w) = Some cur ->
  status (gameState w) = playing ->
  isTimerActive w = true ->
  timeLeft w <= 1 ->
  r < length (availableMoves (board (gameState w))) ->
  draw_is_uniform (board (gameState w))
  /\ exists w' i,
      step (TimerFired r) w = Some w'
      /\ nth_error (availableMoves (board (gameState w))) r = Some i
      /\ gameState w' = makeMove i (Some (other cur)) (gameState w)
      /\ timeout_move_by (other cur) r
           (board (gameState w)) (board (gameState w'))
      /\ currentPlayer (gameState w') = Some cur
      /\ timeLeft w' = 10.
Proof.
  intros Hm Hc Hs Ha Ht Hr. split; [apply availableMoves_uniform|].
  assert (Hon : onTimeUp r (gameState w)
                = randomMoveFor r (Some (other cur)) (gameState w)).
  { unfold onTimeUp. rewrite Hm, Hc. destruct cur; reflexivity. }
  destruct (timer_fires_for w r (other cur) Hon Hs Ha Ht Hr)
    as (w' & i & Hstep & Hi & Hg & Hby & Htl).
  exists w', i. repeat split; try assumption.
  rewrite Hg.
  assert (He : empty_at (board (gameState w)) i)
    by (apply availableMoves_In; eapply nth_error_In; eassumption).
  destruct (makeMove_turn i (other cur) (gameState w) Hs He)
    as [[_ E]|[_ E]]; rewrite E; [assumption|].
  destruct cur; reflexivity.
Qed.

Lemma timeout_pvp_moves_for_other_witness :
  let w := {| gameState :=
                {| board := [Val (Some X); Val (Some O); Val None;
                             Val (Some O); Val (Some X); Val None;
                             Val (Some X); Val (Some X); Val (Some O)];
                   currentPlayer := Some X; status := playing;
                   winner := None; winningCells := [];
                   scores := scores INITIAL_STATE; mode := pvp |};
              timeLeft := 1; isTimerActive := true |} in
  exists w' i,
    step (TimerFired 1) w = Some w'
    /\ nth_error (availableMoves (board (gameState w))) 1 = Some i
    /\ gameState w' = makeMove i (Some O) (gameState w)
    /\ timeout_move_by O 1 (board (gameState w)) (board (gameState w'))
    /\ currentPlayer (gameState w') = Some X
    /\ timeLeft w' = 10.
Proof.
  intros w.
  apply (timeout_pvp_moves_for_other w X 1);
    first [reflexivity | vm_compute; lia].
Defined.

(** C1, amended: in [pve] mode, when the timer fires at the last second of
    X's turn in a [playing] round with an empty cell, the engine plays
    [availableMoves[r]] with mark O (the AI gets a free move): exactly that
    cell changes, from empty to O; the turn stays with X; the countdown is
    back at 10.  Legal draws and empty cells correspond one to one. *)
Theorem timeout_pve_gives_ai_free_move (w : World) (r : nat) :
  mode (gameState w) = pve ->
  currentPlayer (gameState w) = Some X ->
  status (gameState w) = playing ->
  isTimerActive w = true ->
  timeLeft w <= 1 ->
  r < length (availableMoves (board (gameState w))) ->
  draw_is_uniform (board (gameState w))
  /\ exists w' i,
      step (TimerFired r) w = Some w'
      /\ nth_error (availableMoves (board (gameState w))) r = Some i
      /\ gameState w' = makeMove i (Some O) (gameState w)
      /\ timeout_move_by O r (board (gameState w)) (board (gameState w'))
      /\ currentPlayer (gameState w') = Some X
      /\ timeLeft w' = 10.
Proof.
  intros Hm Hc Hs Ha Ht Hr. split; [apply availableMoves_uniform|].
  assert (Hon : onTimeUp r (gameState w)
                = randomMoveFor r (Some O) (gameState w)).
  { unfold onTimeUp. rewrite Hm, Hc. reflexivity. }
  destruct (timer_fires_for w r O Hon Hs Ha Ht Hr)
    as (w' & i & Hstep & Hi & Hg & Hby & Htl).
  exists w', i. repeat split; try assumption.
  rewrite Hg.
  assert (He : empty_at (board (gameState w)) i)
    by (apply availableMoves_In; eapply nth_error_In; eassumption).
  destruct (makeMove_turn i O (gameState w) Hs He)
    as [[_ E]|[_ E]]; rewrite E; [assumption | reflexivity].
Qed.

Lemma timeout_pve_gives_ai_free_move_witness :
  exists w' i,
    step (TimerFired 3) firstCountdownOver = Some w'
    /\ nth_error (availableMoves (board (gameState firstCountdownOver))) 3
       = Some i
    /\ gameState w' = makeMove i (Some O) (gameState firstCountdownOver)
    /\ timeout_move_by O 3 (board (gameState firstCountdownOver))
                       (board (gameState w'))
    /\ currentPlayer (gameState w') = Some X
    /\ timeLeft w' = 10.
Proof.
  apply (timeout_pve_gives_ai_free_move firstCountdownOver 3);
    first [reflexivity | vm_compute; lia].
Defined.

(** C1 as stated fails: nine timer events after session start the first
    countdown is at its last second, in [pve] mode with X to move on an
    empty board; whatever the draw, the timer event that follows does not
    put an X on the board, it puts an O. *)
Lemma timeout_pve_does_not_play_X :
  run (repeat (TimerFired 0) 9) initialWorld = Some firstCountdownOver
  /\ mode (gameState firstCountdownOver) = pve
  /\ currentPlayer (gameState firstCountdownOver) = Some X
  /\ status (gameState firstCountdownOver) = playing
  /\ timeLeft firstCountdownOver <= 1
  /\ empty_at (board (gameState firstCountdownOver)) 0
  /\ forall r w',
      r < length (availableMoves (board (gameState firstCountdownOver))) ->
      step (TimerFired r) firstCountdownOver = Some w' ->
      timeout_move_by O r (board (gameState firstCountdownOver))
                      (board (gameState w'))
      /\ ~ timeout_move_by X r (board (gameState firstCountdownOver))
                           (board (gameState w')).
Proof.
  split; [vm_compute; reflexivity|].
  do 4 (split; [first [reflexivity | vm_compute; lia]|]).
  split; [reflexivity|].
  intros r w' Hr Hstep.
  destruct (timer_fires_for firstCountdownOver r O)
    as (w1 & i & Hstep1 & Hi & _ & Hby & _);
    try reflexivity; try (vm_compute; lia); try assumption.
  rewrite Hstep in Hstep1. inversion Hstep1; subst w1.
  split; [exact Hby|].
  intros (i' & Hi' & _ & HX & _).
  destruct Hby as (i0 & Hi0 & _ & HO & _).
  assert (i' = i0) by congruence. subst i'. congruence.
Qed.

(** ** One winner at most *)

Lemma initial_board_no_triple (m : Mark) :
  ~ has_triple m (board INITIAL_STATE).
Proof. apply no_triple_by_detector. vm_compute. reflexivity. Qed.

Lemma round_invariant_fresh (g : GameState) :
  board g = board INITIAL_STATE -> round_invariant g.
Proof.
  intros E. unfold round_invariant. rewrite E. split.
  - intros _ m. apply initial_board_no_triple.
  - intros [H _]. exact (initial_board_no_triple X H).
Qed.

Lemma guard_false_playing (index : nat) (g : GameState) :
  Js.truthy (Js.get (board g) index) || negb (is_playing (status g)) = false ->
  status g = playing.
Proof.
  intros H. apply orb_false_iff in H. destruct H as [_ H].
  unfold is_playing in H.
  destruct (GameStatus_eq_dec (status g) playing); [assumption | discriminate].
Qed.

(** Any call of [makeMove], whatever its arguments, keeps the invariant. *)
Lemma makeMove_invariant (index : nat) (player : Player) (g : GameState) :
  round_invariant g -> round_invariant (makeMove index player g).
Proof.
  intros [Hplay Hboth]. unfold makeMove.
  destruct (Js.truthy (Js.get (board g) index)
            || negb (is_playing (status g))) eqn:G; [split; assumption|].
  pose proof (Hplay (guard_false_playing _ _ G)) as Hnone. cbv zeta.
  destruct (checkWinner (Js.set (Js.spread (board g)) index (Val player)))
    as [[w|] cells] eqn:E.
  - split; simpl; [discriminate|]. intros [HX HO].
    pose proof (has_triple_newBoard _ _ _ _ Hnone HX).
    pose proof (has_triple_newBoard _ _ _ _ Hnone HO). congruence.
  - destruct (checkWinner_none _ _ E) as [_ Hnew].
    destruct (Js.every_not_null
                (Js.set (Js.spread (board g)) index (Val player)));
      (split; simpl; [intros _ m; apply Hnew | intros [HX _]; exact (Hnew X HX)]).
Qed.

Lemma step_invariant (e : Event) (w w' : World) :
  step e w = Some w' ->
  round_invariant (gameState w) -> round_invariant (gameState w').
Proof.
  intros H Inv.
  destruct (step_cases _ _ _ H)
    as [E|[(i & p & E)|[[_ E]|[[_ E]|(m & _ & _ & E)]]]]; rewrite E.
  - assumption.
  - apply makeMove_invariant. assumption.
  - apply round_invariant_fresh. reflexivity.
  - apply round_invariant_fresh. reflexivity.
  - apply round_invariant_fresh. reflexivity.
Qed.

Lemma reachable_invariant (w : World) :
  reachable w -> round_invariant (gameState w).
Proof.
  induction 1 as [|e w w' _ IH Hstep].
  - apply round_invariant_fresh. reflexivity.
  - eapply step_invariant; eassumption.
Qed.

Lemma run_reachable (es : list Event) (w w' : World) :
  reachable w -> run es w = Some w' -> reachable w'.
Proof.
  revert w. induction es as [|e es IH]; simpl; intros w Hw H.
  - inversion H. subst. assumption.
  - destruct (step e w) as [w1|] eqn:E; [|discriminate].
    apply (IH w1); [|assumption]. eapply reachable_step; eassumption.
Qed.

(** C9: on the board of every world reachable from the initial one by cell
    clicks, AI moves, timer events, new rounds, score resets and mode
    changes, an all-X combination and an all-O combination never exist
    together, and every mark that owns a combination is the one the
    detector reports. *)
Theorem reachable_one_winner (w : World) :
  reachable w ->
  ~ (has_triple X (board (gameState w)) /\ has_triple O (board (gameState w)))
  /\ forall m, has_triple m (board (gameState w)) ->
               fst (checkWinner (board (gameState w))) = Some m.
Proof.
  intros Hr. destruct (reachable_invariant w Hr) as [_ Hboth].
  split; [exact Hboth|]. intros m Hm.
  destruct (checkWinner (board (gameState w))) as [[v|] cells] eqn:E.
  - destruct (checkWinner_some _ _ _ E) as [Hin Hl].
    assert (Hv : has_triple v (board (gameState w)))
      by (exists cells; split; assumption).
    simpl. destruct m, v; try reflexivity; exfalso; apply Hboth; auto.
  - exfalso. exact (proj2 (checkWinner_none _ _ E) m Hm).
Qed.

Lemma reachable_one_winner_witness :
  ~ (has_triple X (board (gameState wonRoundWorld))
     /\ has_triple O (board (gameState wonRoundWorld))).
Proof.
  apply (reachable_one_winner wonRoundWorld).
  apply (run_reachable
           [ModeClicked pvp; CellClicked 0; CellClicked 4; CellClicked 1;
            CellClicked 8; CellClicked 2] initialWorld).
  - apply reachable_initial.
  - vm_compute. reflexivity.
Defined.

(** ** The selector *)

Lemma wins_at_true (m : Mark) (board : Board) (move : nat) :
  wins_at m board move = true <->
  fst (checkWinner (Js.set (Js.spread board) move (Val (Some m)))) = Some m.
Proof.
  unfold wins_at. cbv zeta.
  destruct (Player_eq_dec
              (fst (checkWinner (Js.set (Js.spread board) move (Val (Some m)))))
              (Some m)); split; intros; congruence.
Qed.

Lemma find_wins_at_some (m : Mark) (board : Board) (move : nat) :
  find (wins_at m board) (availableMoves board) = Some move ->
  wins_now m board move.
Proof.
  intros H. apply find_some in H. destruct H as [Hin Hw]. split.
  - apply availableMoves_In. assumption.
  - apply wins_at_true. assumption.
Qed.

Lemma find_wins_at_none (m : Mark) (board : Board) :
  find (wins_at m board) (availableMoves board) = None ->
  forall j, ~ wins_now m board j.
Proof.
  intros H j [He Hw]. apply availableMoves_In in He.
  pose proof (find_none _ _ H j He) as Hf.
  apply wins_at_true in Hw. congruence.
Qed.

Lemma emptyCorners_In (board : Board) (c : nat) :
  In c (emptyCorners board) <-> In c [0; 2; 6; 8] /\ empty_at board c.
Proof.
  unfold emptyCorners. rewrite filter_In. unfold empty_at.
  split; intros [Hc Hn]; (split; [assumption|]).
  - destruct (Js.get board c) as [[mk|]|]; try discriminate. reflexivity.
  - rewrite Hn. reflexivity.
Qed.

Lemma is_null_false (v : option Player) :
  Js.is_null v = false -> v <> Some None.
Proof. intros H E. rewrite E in H. discriminate. Qed.

(** The selector past its three deterministic rules. *)
Lemma getBestMove_random_part (r : nat) (board : Board) :
  find (wins_at O board) (availableMoves board) = None ->
  find (wins_at X board) (availableMoves board) = None ->
  Js.is_null (Js.get board 4) = false ->
  getBestMove r board
  = match emptyCorners board with
    | [] => nth_error (availableMoves board) r
    | _ :: _ => nth_error (emptyCorners board) r
    end.
Proof.
  intros H1 H2 H4. unfold getBestMove. cbv zeta. rewrite H1, H2, H4.
  destruct (emptyCorners board); reflexivity.
Qed.

(** C6: on a board with an empty cell there is a legal draw, and for every
    legal draw the selector returns an empty index picked by the first
    applicable rule: an immediate O win, else an immediate X win to block,
    else the centre 4, else an empty corner among 0, 2, 6, 8, else an empty
    cell.  In the two random rules every candidate (empty corner, resp.
    empty cell) is the answer for some legal draw.  On the board
    X X _ / O O _ / _ _ _ the answer is 5 whatever the draw. *)
Theorem getBestMove_priority :
  (forall board : Board,
      (exists j, empty_at board j) ->
      (exists r, legal_draw r board)
      /\ (forall r, legal_draw r board ->
                    exists i, getBestMove r board = Some i
                              /\ empty_at board i
                              /\ selected board i)
      /\ (forall c,
             (forall j, ~ wins_now O board j) ->
             (forall j, ~ wins_now X board j) ->
             ~ empty_at board 4 ->
             empty_at board c ->
             In c [0; 2; 6; 8]
             \/ (forall c', In c' [0; 2; 6; 8] -> ~ empty_at board c') ->
             exists r, legal_draw r board /\ getBestMove r board = Some c))
  /\ (forall r,
         getBestMove r [Val (Some X); Val (Some X); Val None;
                        Val (Some O); Val (Some O); Val None;
                        Val None; Val None; Val None] = Some 5).
Proof.
  split; [|intros r; vm_compute; reflexivity].
  intros board [j Hj].
  assert (Ham : 0 < length (availableMoves board)).
  { apply availableMoves_In in Hj.
    destruct (availableMoves board); [contradiction | simpl; lia]. }
  split; [|split].
  - destruct (emptyCorners board) as [|c t] eqn:E.
    + exists 0. right. rewrite E. auto.
    + exists 0. left. rewrite E. simpl. lia.
  - intros r Hr. unfold getBestMove. cbv zeta.
    destruct (find (wins_at O board) (availableMoves board)) as [mv|] eqn:E1.
    { exists mv. pose proof (find_wins_at_some _ _ _ E1) as Hw.
      split; [reflexivity|]. split; [apply Hw | apply by_win_now; exact Hw]. }
    pose proof (find_wins_at_none _ _ E1) as HnoO.
    destruct (find (wins_at X board) (availableMoves board)) as [mv|] eqn:E2.
    { exists mv. pose proof (find_wins_at_some _ _ _ E2) as Hw.
      split; [reflexivity|].
      split; [apply Hw | apply by_block; assumption]. }
    pose proof (find_wins_at_none _ _ E2) as HnoX.
    destruct (Js.is_null (Js.get board 4)) eqn:E4.
    { exists 4.
      assert (H4 : empty_at board 4).
      { unfold empty_at.
        destruct (Js.get board 4) as [[mk|]|]; try discriminate; reflexivity. }
      split; [reflexivity|]. split; [exact H4|].
      apply by_center; auto. }
    pose proof (is_null_false _ E4) as Hn4.
    destruct (Nat.ltb_spec 0 (length (emptyCorners board))) as [Hc|Hc].
    + destruct Hr as [Hr|[Hr _]]; [|rewrite Hr in Hc; simpl in Hc; lia].
      destruct (nth_error (emptyCorners board) r) as [c|] eqn:En;
        [|apply nth_error_None in En; lia].
      apply nth_error_In in En. apply emptyCorners_In in En.
      destruct En as [Hin He].
      exists c. split; [reflexivity|]. split; [exact He|].
      apply by_corner; assumption.
    + assert (Hnil : emptyCorners board = [])
        by (destruct (emptyCorners board); [reflexivity | simpl in Hc; lia]).
      destruct Hr as [Hr|[_ Hr]]; [rewrite Hnil in Hr; simpl in Hr; lia|].
      destruct (nth_error (availableMoves board) r) as [i|] eqn:En;
        [|apply nth_error_None in En; lia].
      apply nth_error_In in En. apply availableMoves_In in En.
      exists i. split; [reflexivity|]. split; [exact En|].
      apply by_fallback; try assumption.
      intros c Hin He.
      assert (In c (emptyCorners board))
        by (apply emptyCorners_In; split; assumption).
      rewrite Hnil in *. contradiction.
  - intros c HnoO HnoX Hn4 He Hwhich.
    assert (E1 : find (wins_at O board) (availableMoves board) = None).
    { destruct (find (wins_at O board) (availableMoves board)) as [mv|] eqn:E;
        [|reflexivity].
      exfalso. exact (HnoO mv (find_wins_at_some _ _ _ E)). }
    assert (E2 : find (wins_at X board) (availableMoves board) = None).
    { destruct (find (wins_at X board) (availableMoves board)) as [mv|] eqn:E;
        [|reflexivity].
      exfalso. exact (HnoX mv (find_wins_at_some _ _ _ E)). }
    assert (E4 : Js.is_null (Js.get board 4) = false).
    { destruct (Js.get board 4) as [[mk|]|] eqn:E; try reflexivity.
      exfalso. apply Hn4. exact E. }
    destruct Hwhich as [Hin|Hnone].
    + assert (Hc : In c (emptyCorners board))
        by (apply emptyCorners_In; split; assumption).
      destruct (In_nth_error _ _ Hc) as [r Hr]. exists r.
      assert (Hlt : r < length (emptyCorners board))
        by (apply nth_error_Some; congruence).
      split; [left; exact Hlt|].
      rewrite (getBestMove_random_part r board E1 E2 E4).
      destruct (emptyCorners board); [contradiction | exact Hr].
    + assert (Hnil : emptyCorners board = []).
      { destruct (emptyCorners board) as [|c' t] eqn:E; [reflexivity|].
        assert (Hc' : In c' (emptyCorners board)) by (rewrite E; left; reflexivity).
        apply emptyCorners_In in Hc'. destruct Hc' as [Hin He'].
        exfalso. exact (Hnone c' Hin He'). }
      apply availableMoves_In in He.
      destruct (In_nth_error _ _ He) as [r Hr]. exists r.
      assert (Hlt : r < length (availableMoves board))
        by (apply nth_error_Some; congruence).
      split; [right; split; assumption|].
      rewrite (getBestMove_random_part r board E1 E2 E4).
      rewrite Hnil. exact Hr.
Qed.

Lemma getBestMove_priority_witness :
  (exists i, getBestMove 0 [Val (Some X); Val (Some X); Val None;
                            Val None; Val (Some O); Val None;
                            Val None; Val None; Val None] = Some i
             /\ empty_at [Val (Some X); Val (Some X); Val None;
                          Val None; Val (Some O); Val None;
                          Val None; Val None; Val None] i
             /\ selected [Val (Some X); Val (Some X); Val None;
                          Val None; Val (Some O); Val None;
                          Val None; Val None; Val None] i)
  /\ getBestMove 0 [Val (Some X); Val (Some X); Val None;
                    Val None; Val (Some O); Val None;
                    Val None; Val None; Val None] = Some 2.
Proof.
  split; [|vm_compute; reflexivity].
  destruct (proj1 getBestMove_priority
                  [Val (Some X); Val (Some X); Val None;
                   Val None; Val (Some O); Val None;
                   Val None; Val None; Val None]) as (_ & H & _).
  - exists 2. reflexivity.
  - apply (H 0). left. vm_compute. lia.
Defined.

(** ** The events never get stuck on a selector without an answer *)

Lemma every_not_null_false (arr : Board) :
  Js.every_not_null arr = false -> exists j, empty_at arr j.
Proof.
  unfold Js.every_not_null, empty_at.
  induction arr as [|s t IH]; simpl; [discriminate|].
  destruct s as [| |[m|]]; simpl; intros H;
    try (destruct (IH H) as [j Hj]; exists (S j); exact Hj).
  exists 0. reflexivity.
Qed.

Lemma makeMove_has_room (index : nat) (player : Player) (g : GameState) :
  has_room g -> has_room (makeMove index player g).
Proof.
  intros Hg. unfold makeMove.
  destruct (Js.truthy (Js.get (board g) index)
            || negb (is_playing (status g))); [assumption|].
  cbv zeta.
  destruct (checkWinner (Js.set (Js.spread (board g)) index (Val player)))
    as [[w|] cells]; [intros H; discriminate H|].
  destruct (Js.every_not_null
              (Js.set (Js.spread (board g)) index (Val player))) eqn:E;
    [intros H; discriminate H|].
  intros _. apply every_not_null_false. exact E.
Qed.

Lemma reachable_has_room (w : World) :
  reachable w -> has_room (gameState w).
Proof.
  assert (Hfresh : forall g, board g = board INITIAL_STATE -> has_room g).
  { intros g E _. exists 0. rewrite E. reflexivity. }
  induction 1 as [|e w w' _ IH Hstep].
  - apply Hfresh. reflexivity.
  - destruct (step_cases _ _ _ Hstep)
      as [E|[(i & p & E)|[[_ E]|[[_ E]|(m & _ & _ & E)]]]]; rewrite E.
    + assumption.
    + apply makeMove_has_room. assumption.
    + apply Hfresh. reflexivity.
    + apply Hfresh. reflexivity.
    + apply Hfresh. reflexivity.
Qed.

Lemma getBestMove_defined (r : nat) (board : Board) :
  legal_draw r board -> exists i, getBestMove r board = Some i.
Proof.
  intros Hr. unfold getBestMove. cbv zeta.
  destruct (find (wins_at O board) (availableMoves board)) as [mv|];
    [exists mv; reflexivity|].
  destruct (find (wins_at X board) (availableMoves board)) as [mv|];
    [exists mv; reflexivity|].
  destruct (Js.is_null (Js.get board 4)); [exists 4; reflexivity|].
  destruct Hr as [Hr|[Hnil Hr]].
  - destruct (Nat.ltb_spec 0 (length (emptyCorners board))); [|lia].
    destruct (nth_error (emptyCorners board) r) as [c|] eqn:E;
      [exists c; reflexivity | apply nth_error_None in E; lia].
  - rewrite Hnil. simpl.
    destruct (nth_error (availableMoves board) r) as [c|] eqn:E;
      [exists c; reflexivity | apply nth_error_None in E; lia].
Qed.

(** Whenever the AI is to move in a reachable world, a legal draw exists and
    every legal draw lets the AI event run. *)
Lemma ai_event_runs (w : World) :
  reachable w ->
  aiToMove (gameState w) = true ->
  (exists r, legal_draw r (board (gameState w)))
  /\ forall r, legal_draw r (board (gameState w)) ->
               exists w', step (AiDelayElapsed r) w = Some w'.
Proof.
  intros Hr Hai.
  assert (Hs : status (gameState w) = playing).
  { unfold aiToMove in Hai. apply andb_true_iff in Hai.
    destruct Hai as [_ Hp]. unfold is_playing in Hp.
    destruct (GameStatus_eq_dec (status (gameState w)) playing);
      [assumption | discriminate]. }
  split.
  - destruct (reachable_has_room w Hr Hs) as [j Hj].
    apply availableMoves_In in Hj.
    destruct (emptyCorners (board (gameState w))) as [|c t] eqn:E.
    + exists 0. right. rewrite E. split; [reflexivity|].
      destruct (availableMoves (board (gameState w)));
        [contradiction | simpl; lia].
    + exists 0. left. rewrite E. simpl. lia.
  - intros r Hd. destruct (getBestMove_defined r _ Hd) as [i Hi].
    unfold step, handle, aiMove. rewrite Hai, Hi. eexists. reflexivity.
Qed.

(** * Further properties of the engine *)

(** ** [makeMove] as an operation *)

Lemma makeMove_guard_true (index : nat) (player : Player) (g : GameState) :
  Js.truthy (Js.get (board g) index) || negb (is_playing (status g)) = true ->
  makeMove index player g = g.
Proof. intros G. unfold makeMove. rewrite G. reflexivity. Qed.

Lemma makeMove_guard_false (index : nat) (player : Player) (g : GameState) :
  Js.truthy (Js.get (board g) index) || negb (is_playing (status g)) = false ->
  board (makeMove index player g)
  = Js.set (Js.spread (board g)) index (Val player)
  /\ mode (makeMove index player g) = mode g.
Proof.
  intros G. unfold makeMove. rewrite G. cbv zeta.
  destruct (checkWinner (Js.set (Js.spread (board g)) index (Val player)))
    as [[w|] cells]; [split; reflexivity|].
  destruct (Js.every_not_null
              (Js.set (Js.spread (board g)) index (Val player)));
    split; reflexivity.
Qed.

Lemma makeMove_mode (index : nat) (player : Player) (g : GameState) :
  mode (makeMove index player g) = mode g.
Proof.
  destruct (Js.truthy (Js.get (board g) index)
            || negb (is_playing (status g))) eqn:G.
  - rewrite (makeMove_guard_true index player g G). reflexivity.
  - apply (makeMove_guard_false index player g G).
Qed.

(** X1: once [makeMove] has been called with a mark at [index], any further
    call at the same index, for whichever player, changes nothing: the cell
    is taken or the round is over. *)
Theorem makeMove_same_cell_twice
        (index : nat) (m : Mark) (q : Player) (s : GameState) :
  makeMove index q (makeMove index (Some m) s) = makeMove index (Some m) s.
Proof.
  destruct (Js.truthy (Js.get (board s) index)
            || negb (is_playing (status s))) eqn:G.
  - rewrite (makeMove_guard_true index (Some m) s G).
    apply makeMove_guard_true. exact G.
  - apply makeMove_guard_true.
    rewrite (proj1 (makeMove_guard_false index (Some m) s G)).
    rewrite get_newBoard_same. reflexivity.
Qed.

(** X2: whatever its arguments, [makeMove] keeps the mode, reads every cell
    other than [index] as before, and never erases or replaces a mark. *)
Theorem makeMove_frame (index : nat) (player : Player) (s : GameState) :
  mode (makeMove index player s) = mode s
  /\ (forall j, j <> index ->
                Js.get (board (makeMove index player s)) j
                = Js.get (board s) j)
  /\ (forall j m, Js.get (board s) j = Some (Some m) ->
                  Js.get (board (makeMove index player s)) j
                  = Some (Some m)).
Proof.
  destruct (Js.truthy (Js.get (board s) index)
            || negb (is_playing (status s))) eqn:G.
  - rewrite (makeMove_guard_true index player s G). auto.
  - destruct (makeMove_guard_false index player s G) as [Hb Hm].
    rewrite Hb, Hm. split; [reflexivity|]. split.
    + intros j Hj. apply get_newBoard_other. congruence.
    + intros j m Hj. destruct (Nat.eq_dec index j) as [->|Hne].
      * apply orb_false_iff in G. destruct G as [G _].
        rewrite Hj in G. discriminate.
      * rewrite get_newBoard_other by assumption. exact Hj.
Qed.

Lemma makeMove_frame_witness :
  Js.get (board (makeMove 4 (Some X) INITIAL_STATE)) 0
  = Js.get (board INITIAL_STATE) 0
  /\ Js.get (board (makeMove 0 (Some O) (makeMove 4 (Some X) INITIAL_STATE))) 4
     = Some (Some X).
Proof.
  split.
  - apply (proj1 (proj2 (makeMove_frame 4 (Some X) INITIAL_STATE))).
    discriminate.
  - apply (proj2 (proj2 (makeMove_frame 0 (Some O)
                           (makeMove 4 (Some X) INITIAL_STATE)))).
    vm_compute. reflexivity.
Defined.

(** ** The detector's scan order *)

Lemma line_of_shape (m : Mark) (board : Board) (line : list nat) :
  line_of m board line -> exists a b c, line = [a; b; c].
Proof. intros (a & b & c & E & _). exists a, b, c. exact E. Qed.

Lemma line_of_one_mark (m m' : Mark) (board : Board) (line : list nat) :
  line_of m board line -> line_of m' board line -> m = m'.
Proof.
  intros (a & b & c & E & Ha & _) (a' & b' & c' & E' & Ha' & _).
  rewrite E in E'. inversion E'; subst. congruence.
Qed.

Lemma checkWinner_from_skip (combination : list nat) (rest : list (list nat))
      (board : Board) :
  (forall m, ~ line_of m board combination) ->
  checkWinner_from (combination :: rest) board = checkWinner_from rest board.
Proof.
  intros Hno. simpl.
  destruct combination as [|a [|b [|c [|d t]]]]; try reflexivity.
  destruct (Js.truthy (Js.get board a)
            && Js.strict_eq (Js.get board a) (Js.get board b)
            && Js.strict_eq (Js.get board a) (Js.get board c)) eqn:Ht;
    [|reflexivity].
  apply line_test_true in Ht. destruct Ht as (m & Ha & Hb & Hc).
  exfalso. apply (Hno m). exists a, b, c. auto.
Qed.

Lemma checkWinner_from_hit (combination : list nat) (rest : list (list nat))
      (board : Board) (m : Mark) :
  line_of m board combination ->
  checkWinner_from (combination :: rest) board = (Some m, combination).
Proof.
  intros (a & b & c & -> & Ha & Hb & Hc). simpl.
  assert (Ht : Js.truthy (Js.get board a)
               && Js.strict_eq (Js.get board a) (Js.get board b)
               && Js.strict_eq (Js.get board a) (Js.get board c) = true)
    by (apply line_test_true; exists m; auto).
  rewrite Ht, Ha. reflexivity.
Qed.

Lemma checkWinner_from_first (combos : list (list nat)) (board : Board)
      (w : Mark) (cells : list nat) :
  checkWinner_from combos board = (Some w, cells)
  <-> exists pre post,
        combos = pre ++ cells :: post
        /\ line_of w board cells
        /\ forall line m, In line pre -> ~ line_of m board line.
Proof.
  induction combos as [|combination rest IH].
  - simpl. split; [discriminate|].
    intros (pre & post & E & _). destruct pre; discriminate.
  - split.
    + intros H.
      destruct (checkWinner_from_some _ _ _ _ H) as [_ Hl].
      destruct (checkWinner_from [combination] board) as [[v|] cs] eqn:E1.
      * destruct (checkWinner_from_some _ _ _ _ E1) as [[<-|[]] Hv].
        rewrite (checkWinner_from_hit _ rest _ _ Hv) in H.
        inversion H; subst.
        exists [], rest. split; [reflexivity|]. split; [assumption|].
        intros line m [].
      * destruct (checkWinner_from_none _ _ _ E1) as [_ Hno].
        assert (Hskip : forall m, ~ line_of m board combination)
          by (intros m; apply Hno; left; reflexivity).
        rewrite (checkWinner_from_skip _ rest _ Hskip) in H.
        apply IH in H. destruct H as (pre & post & E & Hc & Hpre).
        exists (combination :: pre), post. rewrite E.
        split; [reflexivity|]. split; [assumption|].
        intros line m [<-|Hin]; [apply Hskip | apply Hpre; assumption].
    + intros (pre & post & E & Hl & Hpre). destruct pre as [|p pre].
      * simpl in E. inversion E; subst. apply checkWinner_from_hit. assumption.
      * simpl in E. inversion E; subst.
        rewrite checkWinner_from_skip
          by (intros m; apply Hpre; left; reflexivity).
        apply IH. exists pre, post. split; [reflexivity|].
        split; [assumption|]. intros line m Hin. apply Hpre. right. assumption.
Qed.

(** X3: the detector reports mark [w] with line [cells] exactly when
    [cells] is the first of the eight combinations, in the order rows,
    columns, diagonals, that one mark fills, and that mark is [w]; it reports
    no winner and no cells exactly when no combination is filled. *)
Theorem checkWinner_first_match (board : Board) :
  (forall w cells,
      checkWinner board = (Some w, cells)
      <-> exists pre post,
            WINNING_COMBINATIONS = pre ++ cells :: post
            /\ line_of w board cells
            /\ forall line m, In line pre -> ~ line_of m board line)
  /\ (checkWinner board = (None, []) <-> forall m, ~ has_triple m board)
  /\ (forall cells, checkWinner board = (None, cells) -> cells = []).
Proof.
  split; [intros w cells; apply checkWinner_from_first|]. split.
  - split; [intros H; exact (proj2 (checkWinner_none _ _ H))
           | apply no_triple_checkWinner].
  - intros cells H. exact (proj1 (checkWinner_none _ _ H)).
Qed.

Lemma checkWinner_first_match_witness :
  checkWinner [Val (Some O); Val (Some X); Val (Some X);
               Val (Some O); Val (Some O); Val (Some O);
               Val (Some O); Val None; Val (Some X)]
  = (Some O, [3; 4; 5]).
Proof.
  apply (proj2 (proj1 (checkWinner_first_match
                         [Val (Some O); Val (Some X); Val (Some X);
                          Val (Some O); Val (Some O); Val (Some O);
                          Val (Some O); Val None; Val (Some X)])
                      O [3; 4; 5])).
  exists [[0; 1; 2]], [[6; 7; 8]; [0; 3; 6]; [1; 4; 7]; [2; 5; 8];
                       [0; 4; 8]; [2; 4; 6]].
  split; [reflexivity|]. split.
  - exists 3, 4, 5. repeat split; reflexivity.
  - intros line m [<-|[]] (a & b & c & E & Ha & Hb & _).
    inversion E; subst. vm_compute in Ha, Hb. congruence.
Defined.

(** ** The list of empty cells *)

Lemma null_indices_increasing (k : nat) (arr : Board) (r1 r2 i1 i2 : nat) :
  r1 < r2 ->
  nth_error (flat_map (fun ic : nat * Slot =>
                         match snd ic with Val None => [fst ic] | _ => [] end)
                      (combine (seq k (length arr)) arr)) r1 = Some i1 ->
  nth_error (flat_map (fun ic : nat * Slot =>
                         match snd ic with Val None => [fst ic] | _ => [] end)
                      (combine (seq k (length arr)) arr)) r2 = Some i2 ->
  i1 < i2.
Proof.
  revert k r1 r2. induction arr as [|s t IH]; intros k r1 r2 Hlt H1 H2.
  - destruct r1; discriminate.
  - simpl in H1, H2.
    destruct s as [| |[m|]]; simpl in H1, H2;
      try (eapply IH; eassumption).
    destruct r2 as [|r2]; [lia|]. simpl in H2.
    destruct r1 as [|r1]; simpl in H1.
    + inversion H1; subst. apply nth_error_In in H2.
      apply null_indices_from in H2. lia.
    + apply (IH (S k) r1 r2); [lia | assumption | assumption].
Qed.

(** X4: [availableMoves] lists exactly the empty cells, each below the
    board's length, in strictly increasing order. *)
Theorem availableMoves_exact_sorted (board : Board) :
  (forall i, In i (availableMoves board) <-> empty_at board i)
  /\ (forall i, In i (availableMoves board) -> i < length board)
  /\ (forall r1 r2 i1 i2,
         r1 < r2 ->
         nth_error (availableMoves board) r1 = Some i1 ->
         nth_error (availableMoves board) r2 = Some i2 ->
         i1 < i2).
Proof.
  split; [apply availableMoves_In|]. split.
  - intros i Hi. apply availableMoves_In in Hi.
    apply get_is_null_lt. exact Hi.
  - intros r1 r2 i1 i2. apply null_indices_increasing.
Qed.

Lemma availableMoves_exact_sorted_witness :
  In 5 (availableMoves [Val (Some X); Val None; Val (Some O);
                        Val None; Val (Some X); Val None])
  /\ 1 < 3.
Proof.
  destruct (availableMoves_exact_sorted
              [Val (Some X); Val None; Val (Some O);
               Val None; Val (Some X); Val None]) as (Hin & _ & Hsorted).
  split.
  - apply Hin. reflexivity.
  - apply (Hsorted 0 1 1 3); [lia | reflexivity | reflexivity].
Defined.

(** ** What an event plays *)

Lemma is_playing_true (st : GameStatus) :
  is_playing st = true <-> st = playing.
Proof.
  unfold is_playing. destruct (GameStatus_eq_dec st playing);
    split; intros; congruence.
Qed.

Lemma is_pve_true (m : GameMode) : is_pve m = true <-> m = pve.
Proof.
  unfold is_pve. destruct (GameMode_eq_dec m pve); split; intros; congruence.
Qed.

Lemma is_pvp_true (m : GameMode) : is_pvp m = true <-> m = pvp.
Proof.
  unfold is_pvp. destruct (GameMode_eq_dec m pvp); split; intros; congruence.
Qed.

Lemma is_player_true (p q : Player) : is_player p q = true <-> p = q.
Proof.
  unfold is_player. destruct (Player_eq_dec p q); split; intros; congruence.
Qed.

Lemma aiToMove_true (g : GameState) :
  aiToMove g = true <->
  mode g = pve /\ currentPlayer g = Some O /\ status g = playing.
Proof.
  unfold aiToMove.
  rewrite !andb_true_iff, is_pve_true, is_player_true, is_playing_true.
  tauto.
Qed.

Lemma cellDisabled_false (g : GameState) (index : nat) :
  cellDisabled g index = false ->
  status g = playing
  /\ empty_at (board g) index
  /\ (mode g = pve -> currentPlayer g = Some X).
Proof.
  unfold cellDisabled, empty_at, Js.get.
  destruct (nth_error (board g) index) as [[| |value]|]; try discriminate.
  intros H. apply orb_false_iff in H. destruct H as [H Hv].
  apply orb_false_iff in H. destruct H as [Hs Hm].
  apply negb_false_iff in Hs. apply is_playing_true in Hs.
  apply negb_false_iff in Hv.
  split; [assumption|]. split.
  - destruct value; [discriminate | reflexivity].
  - intros Hpve. apply is_pve_true in Hpve. rewrite Hpve in Hm. simpl in Hm.
    apply negb_false_iff in Hm. apply is_player_true. assumption.
Qed.

Lemma getBestMove_some_empty (r : nat) (board : Board) (i : nat) :
  getBestMove r board = Some i -> empty_at board i.
Proof.
  unfold getBestMove. cbv zeta.
  destruct (find (wins_at O board) (availableMoves board)) as [mv|] eqn:E1.
  { intros H. inversion H; subst. apply (find_wins_at_some _ _ _ E1). }
  destruct (find (wins_at X board) (availableMoves board)) as [mv|] eqn:E2.
  { intros H. inversion H; subst. apply (find_wins_at_some _ _ _ E2). }
  destruct (Js.is_null (Js.get board 4)) eqn:E4.
  { intros H. inversion H; subst. unfold empty_at.
    destruct (Js.get board 4) as [[mk|]|]; try discriminate; reflexivity. }
  destruct (0 <? length (emptyCorners board)); intros H;
    apply nth_error_In in H.
  - apply emptyCorners_In in H. apply H.
  - apply availableMoves_In. assumption.
Qed.

Lemma randomMoveFor_detail (r : nat) (player : Player) (g g' : GameState) :
  randomMoveFor r player g = Some g' ->
  (availableMoves (board g) = [] /\ g' = g)
  \/ exists i, nth_error (availableMoves (board g)) r = Some i
               /\ g' = makeMove i player g.
Proof.
  unfold randomMoveFor. cbv zeta.
  destruct (availableMoves (board g)) as [|a t] eqn:E; simpl.
  - intros H. inversion H. left. auto.
  - destruct (nth_error (a :: t) r) as [i|]; [|discriminate].
    intros H. inversion H. right. exists i. auto.
Qed.

(** Every transition leaves the game alone, plays one move on an empty cell
    of a round in progress, or is one of the controller actions. *)
Lemma step_detail (e : Event) (w w' : World) :
  step e w = Some w' ->
  gameState w' = gameState w
  \/ (exists i p,
         engine_move (gameState w) i p e
         /\ status (gameState w) = playing
         /\ empty_at (board (gameState w)) i
         /\ gameState w' = makeMove i p (gameState w))
  \/ (e = NewGameClicked /\ gameState w' = resetGame (gameState w))
  \/ (e = ResetScoresClicked /\ gameState w' = resetScores (gameState w))
  \/ (exists m, e = ModeClicked m
                /\ modeButtonDisabled (gameState w) = false
                /\ gameState w' = changeGameMode m (gameState w)).
Proof.
  unfold step. destruct (handle e w) as [w1|] eqn:E; [|discriminate].
  intros H. inversion H. rewrite gameState_afterRender. clear H H1 w'.
  destruct e as [index|r|r| | |m]; simpl in E.
  - inversion E. unfold clickCell.
    destruct (cellDisabled (gameState w) index) eqn:D; [left; reflexivity|].
    destruct (cellDisabled_false _ _ D) as (Hs & He & Hm).
    right; left. exists index, (currentPlayer (gameState w)).
    split; [apply move_by_click; auto|]. auto.
  - destruct (timerRunning w) eqn:T; [|discriminate].
    apply andb_true_iff in T. destruct T as [_ Hs].
    apply is_playing_true in Hs. unfold tick in E.
    destruct (timeLeft w <=? 1); [|inversion E; left; reflexivity].
    destruct (onTimeUp r (gameState w)) as [g|] eqn:U; [|discriminate].
    inversion E. simpl. clear E H0. unfold onTimeUp in U.
    destruct (is_pve (mode (gameState w))
              && is_player (currentPlayer (gameState w)) (Some X)) eqn:C1.
    + apply andb_true_iff in C1. destruct C1 as [Hm Hc].
      apply is_pve_true in Hm. apply is_player_true in Hc.
      destruct (randomMoveFor_detail _ _ _ _ U) as [[_ ->]|[i [Hi ->]]];
        [left; reflexivity|].
      right; left. exists i, (Some O).
      split; [eapply move_by_human_timeout; eauto|].
      split; [assumption|]. split; [|reflexivity].
      apply availableMoves_In. eapply nth_error_In. eassumption.
    + destruct (is_pvp (mode (gameState w))) eqn:C2;
        [|inversion U; left; reflexivity].
      apply is_pvp_true in C2.
      destruct (randomMoveFor_detail _ _ _ _ U) as [[_ ->]|[i [Hi ->]]];
        [left; reflexivity|].
      right; left. eexists i, _.
      split; [eapply move_by_pvp_timeout; eauto|].
      split; [assumption|]. split; [|reflexivity].
      apply availableMoves_In. eapply nth_error_In. eassumption.
  - destruct (aiToMove (gameState w)) eqn:A; [|discriminate].
    apply aiToMove_true in A. destruct A as (Hm & Hc & Hs).
    unfold aiMove in E.
    destruct (getBestMove r (board (gameState w))) as [i|] eqn:B;
      [|discriminate].
    inversion E. simpl. right; left. exists i, (Some O).
    split; [eapply move_by_ai; eauto|].
    split; [assumption|].
    split; [eapply getBestMove_some_empty; eassumption | reflexivity].
  - inversion E. right; right; left. split; reflexivity.
  - inversion E. right; right; right; left. split; reflexivity.
  - inversion E. unfold clickModeButton.
    destruct (modeButtonDisabled (gameState w)) eqn:D; [left; reflexivity|].
    do 4 right. exists m. repeat split; reflexivity.
Qed.

(** ** Empty cells are used up one at a time *)

Lemma empty_at_newBoard (arr : Board) (index j : nat) (m : Mark) :
  empty_at (Js.set (Js.spread arr) index (Val (Some m))) j
  <-> j <> index /\ empty_at arr j.
Proof.
  unfold empty_at. destruct (Nat.eq_dec index j) as [->|Hne].
  - rewrite get_newBoard_same. split; [discriminate | intros [H _]; congruence].
  - rewrite get_newBoard_other by assumption.
    split; [intros H; split; [congruence | assumption] | intros [_ H]; exact H].
Qed.

(** X5: a move accepted by [makeMove] uses up exactly one empty cell, the
    one it was played at; every other cell that was empty stays empty. *)
Theorem makeMove_uses_one_empty_cell
        (index : nat) (m : Mark) (s : GameState) :
  status s = playing ->
  empty_at (board s) index ->
  length (availableMoves (board (makeMove index (Some m) s))) + 1
  = length (availableMoves (board s))
  /\ forall j, In j (availableMoves (board (makeMove index (Some m) s)))
               <-> j <> index /\ In j (availableMoves (board s)).
Proof.
  intros Hs He. rewrite (makeMove_board _ _ _ Hs He).
  set (newBoard := Js.set (Js.spread (board s)) index (Val (Some m))).
  assert (Hin : forall j, In j (availableMoves newBoard)
                          <-> j <> index /\ In j (availableMoves (board s))).
  { intros j. rewrite !availableMoves_In. apply empty_at_newBoard. }
  split; [|exact Hin].
  assert (Hnd : NoDup (index :: availableMoves newBoard)).
  { constructor; [|apply availableMoves_NoDup].
    intros H. apply Hin in H. destruct H as [H _]. congruence. }
  assert (H1 : length (index :: availableMoves newBoard)
               <= length (availableMoves (board s))).
  { apply NoDup_incl_length; [exact Hnd|].
    intros j [<-|Hj]; [apply availableMoves_In; exact He | apply Hin, Hj]. }
  assert (H2 : length (availableMoves (board s))
               <= length (index :: availableMoves newBoard)).
  { apply NoDup_incl_length; [apply availableMoves_NoDup|].
    intros j Hj. destruct (Nat.eq_dec index j) as [->|Hne];
      [left; reflexivity | right; apply Hin; split; [congruence | exact Hj]]. }
  simpl in H1, H2. lia.
Qed.

Lemma makeMove_uses_one_empty_cell_witness :
  length (availableMoves (board (makeMove 4 (Some X) INITIAL_STATE))) + 1
  = length (availableMoves (board INITIAL_STATE)).
Proof.
  apply (makeMove_uses_one_empty_cell 4 X INITIAL_STATE); reflexivity.
Defined.

(** ** Well-formed worlds *)

Lemma spread_dense (arr : Board) :
  Forall (fun s => exists p, s = Val p) arr -> Js.spread arr = arr.
Proof.
  induction 1 as [|s t [p ->] _ IH]; simpl; [reflexivity|].
  f_equal. exact IH.
Qed.

Lemma replace_dense (arr : Board) (i : nat) (p : Player) :
  Forall (fun s => exists q, s = Val q) arr ->
  Forall (fun s => exists q, s = Val q) (Js.replace arr i (Val p)).
Proof.
  intros H. revert i. induction H as [|s t Hs Ht IH]; intros [|i]; simpl.
  - constructor.
  - constructor.
  - constructor; [exists p; reflexivity | exact Ht].
  - constructor; [exact Hs | apply IH].
Qed.

Lemma newBoard_dense (arr : Board) (i : nat) (p : Player) :
  Forall (fun s => exists q, s = Val q) arr ->
  i < length arr ->
  Js.set (Js.spread arr) i (Val p) = Js.replace arr i (Val p).
Proof.
  intros Hd Hi. rewrite (spread_dense arr Hd). unfold Js.set.
  destruct (Nat.ltb_spec i (length arr)); [reflexivity | lia].
Qed.

Lemma makeMove_currentPlayer (index : nat) (player : Player) (g : GameState) :
  currentPlayer (makeMove index player g) = currentPlayer g
  \/ exists m, currentPlayer (makeMove index player g) = Some m.
Proof.
  unfold makeMove.
  destruct (Js.truthy (Js.get (board g) index)
            || negb (is_playing (status g))); [left; reflexivity|].
  cbv zeta.
  destruct (checkWinner (Js.set (Js.spread (board g)) index (Val player)))
    as [[w|] cells]; [left; reflexivity|].
  destruct (Js.every_not_null
              (Js.set (Js.spread (board g)) index (Val player)));
    [left; reflexivity|].
  right. simpl. destruct (Player_eq_dec player (Some X)); eauto.
Qed.

Lemma timeLeft_afterRender (before : GameState) (w : World) :
  timeLeft (afterRender before w) = timeLeft w
  \/ timeLeft (afterRender before w) = 10.
Proof.
  unfold afterRender. cbv zeta.
  repeat match goal with
         | |- context [if ?c then _ else _] => destruct c
         end; simpl; auto.
Qed.

Lemma handle_timeLeft (e : Event) (w w1 : World) :
  handle e w = Some w1 ->
  1 <= timeLeft w <= 10 -> 1 <= timeLeft w1 <= 10.
Proof.
  intros H Ht. destruct e as [index|r|r| | |m]; simpl in H.
  - inversion H. unfold clickCell.
    destruct (cellDisabled (gameState w) index); simpl; lia.
  - destruct (timerRunning w); [|discriminate]. unfold tick in H.
    destruct (Nat.leb_spec (timeLeft w) 1).
    + destruct (onTimeUp r (gameState w)); [|discriminate].
      inversion H. simpl. lia.
    + inversion H. simpl. lia.
  - destruct (aiToMove (gameState w)); [|discriminate]. unfold aiMove in H.
    destruct (getBestMove r (board (gameState w))); [|discriminate].
    inversion H. simpl. lia.
  - inversion H. simpl. lia.
  - inversion H. simpl. lia.
  - inversion H. unfold clickModeButton.
    destruct (modeButtonDisabled (gameState w)); simpl; lia.
Qed.

Lemma fresh_board_dense :
  length (board INITIAL_STATE) = 9
  /\ Forall (fun s => exists p, s = Val p) (board INITIAL_STATE).
Proof. split; [reflexivity|]. simpl. repeat constructor; eauto. Qed.

Lemma step_well_formed (e : Event) (w w' : World) :
  step e w = Some w' -> well_formed w -> well_formed w'.
Proof.
  intros Hstep (Hlen & Hd & Hc & Ht).
  assert (Htl : 1 <= timeLeft w' <= 10).
  { unfold step in Hstep. destruct (handle e w) as [w1|] eqn:E; [|discriminate].
    inversion Hstep.
    pose proof (handle_timeLeft _ _ _ E Ht).
    destruct (timeLeft_afterRender (gameState w) w1) as [->| ->]; lia. }
  unfold well_formed.
  destruct (step_detail _ _ _ Hstep)
    as [E|[(i & p & Hmv & Hs & He & E)|[[_ E]|[[_ E]|(m & _ & _ & E)]]]];
    rewrite E.
  - auto.
  - rewrite (makeMove_board _ _ _ Hs He).
    assert (Hi : i < length (board (gameState w)))
      by (apply get_is_null_lt; exact He).
    rewrite (newBoard_dense _ _ _ Hd Hi).
    split; [rewrite length_replace; assumption|].
    split; [apply replace_dense; assumption|].
    split; [|assumption].
    destruct (makeMove_currentPlayer i p (gameState w)) as [-> | H]; assumption.
  - destruct fresh_board_dense. simpl. repeat split; eauto; lia.
  - destruct fresh_board_dense. simpl. repeat split; eauto; lia.
  - destruct fresh_board_dense. simpl. repeat split; eauto; lia.
Qed.

Lemma reachable_wf (w : World) : reachable w -> well_formed w.
Proof.
  induction 1 as [|e w w' _ IH Hstep].
  - destruct fresh_board_dense. unfold well_formed. simpl.
    repeat split; eauto; lia.
  - eapply step_well_formed; eassumption.
Qed.

Lemma dense_nth (arr : Board) (i : nat) :
  Forall (fun s => exists p, s = Val p) arr ->
  i < length arr -> exists p, nth_error arr i = Some (Val p).
Proof.
  intros Hd Hi. destruct (nth_error arr i) as [s|] eqn:E.
  - apply nth_error_In in E. rewrite Forall_forall in Hd.
    destruct (Hd s E) as [p ->]. exists p. reflexivity.
  - apply nth_error_None in E. lia.
Qed.

(** X6: in every reachable world the board is a dense array of exactly nine
    [Player] values (no hole, no [undefined], never extended), it is always
    some mark's turn, at most nine cells are empty, and the countdown is
    between 1 and 10. *)
Theorem reachable_well_formed (w : World) :
  reachable w ->
  length (board (gameState w)) = 9
  /\ (forall i, i < 9 -> exists p, nth_error (board (gameState w)) i
                                   = Some (Val p))
  /\ (forall i, 9 <= i -> Js.get (board (gameState w)) i = None)
  /\ (exists m, currentPlayer (gameState w) = Some m)
  /\ length (availableMoves (board (gameState w))) <= 9
  /\ 1 <= timeLeft w <= 10.
Proof.
  intros Hr. destruct (reachable_wf w Hr) as (Hlen & Hd & Hc & Ht).
  split; [assumption|]. split.
  { intros i Hi. apply dense_nth; [assumption | lia]. }
  split.
  { intros i Hi. apply get_past_end. lia. }
  split; [assumption|]. split; [|assumption].
  change (length (availableMoves (board (gameState w)))
          <= length (seq 0 9)).
  apply NoDup_incl_length; [apply availableMoves_NoDup|].
  intros i Hi. apply in_seq. apply availableMoves_In in Hi.
  apply get_is_null_lt in Hi. lia.
Qed.

Lemma reachable_well_formed_witness :
  length (board (gameState wonRoundWorld)) = 9
  /\ 1 <= timeLeft wonRoundWorld <= 10.
Proof.
  destruct (reachable_well_formed wonRoundWorld) as (H1 & _ & _ & _ & _ & H2).
  - apply (run_reachable
             [ModeClicked pvp; CellClicked 0; CellClicked 4; CellClicked 1;
              CellClicked 8; CellClicked 2] initialWorld).
    + apply reachable_initial.
    + vm_compute. reflexivity.
  - split; assumption.
Defined.

(** ** Status, winner and board agree *)

Lemma makeMove_consistent (index : nat) (player : Player) (g : GameState) :
  consistent g -> consistent (makeMove index player g).
Proof.
  intros Hc. unfold makeMove.
  destruct (Js.truthy (Js.get (board g) index)
            || negb (is_playing (status g))) eqn:G; [assumption|].
  pose proof (guard_false_playing _ _ G) as Hs.
  unfold consistent in Hc. rewrite Hs in Hc.
  destruct Hc as (Hw & Hcells & _ & _). cbv zeta.
  destruct (checkWinner (Js.set (Js.spread (board g)) index (Val player)))
    as [[w|] cells] eqn:E.
  - unfold consistent. simpl. exists w. split; [reflexivity | assumption].
  - destruct (checkWinner_none _ _ E) as [_ Hno].
    destruct (Js.every_not_null
                (Js.set (Js.spread (board g)) index (Val player))) eqn:Ev;
      unfold consistent; simpl.
    + repeat split; try assumption.
      intros j Hj. exact (proj1 (every_not_null_iff _) Ev j Hj).
    + rewrite Hs. repeat split; try assumption.
      apply every_not_null_false. assumption.
Qed.

Lemma fresh_consistent (g : GameState) :
  board g = board INITIAL_STATE -> status g = playing ->
  winner g = None -> winningCells g = [] -> consistent g.
Proof.
  intros Hb Hs Hw Hc. unfold consistent. rewrite Hs, Hb.
  repeat split; try assumption.
  - intros m. apply initial_board_no_triple.
  - exists 0. reflexivity.
Qed.

Lemma reachable_consistent (w : World) :
  reachable w -> consistent (gameState w).
Proof.
  induction 1 as [|e w w' _ IH Hstep].
  - apply fresh_consistent; reflexivity.
  - destruct (step_cases _ _ _ Hstep)
      as [E|[(i & p & E)|[[_ E]|[[_ E]|(m & _ & _ & E)]]]]; rewrite E.
    + assumption.
    + apply makeMove_consistent. assumption.
    + apply fresh_consistent; reflexivity.
    + apply fresh_consistent; reflexivity.
    + apply fresh_consistent; reflexivity.
Qed.

(** X7: in every reachable world the status tells what is on the board.
    While [playing], no winner is recorded, no combination is filled and a
    cell is empty.  When [won], the recorded winner and winning cells are
    what the detector reports on the board: one of the eight combinations,
    filled by the winner.  When [draw], no winner is recorded, no
    combination is filled and all nine cells hold a mark. *)
Theorem reachable_status_agrees_with_board (w : World) :
  reachable w ->
  (status (gameState w) = playing ->
   winner (gameState w) = None /\ winningCells (gameState w) = []
   /\ checkWinner (board (gameState w)) = (None, [])
   /\ exists j, j < 9 /\ empty_at (board (gameState w)) j)
  /\ (status (gameState w) = won ->
      exists m, winner (gameState w) = Some m
                /\ checkWinner (board (gameState w))
                   = (Some m, winningCells (gameState w))
                /\ In (winningCells (gameState w)) WINNING_COMBINATIONS
                /\ line_of m (board (gameState w)) (winningCells (gameState w)))
  /\ (status (gameState w) = draw ->
      winner (gameState w) = None /\ winningCells (gameState w) = []
      /\ checkWinner (board (gameState w)) = (None, [])
      /\ forall j, j < 9 -> occupied (board (gameState w)) j).
Proof.
  intros Hr. pose proof (reachable_consistent w Hr) as Hc.
  destruct (reachable_wf w Hr) as (Hlen & Hd & _ & _).
  unfold consistent in Hc. split; [|split]; intros Hs; rewrite Hs in Hc.
  - destruct Hc as (Hw & Hcells & Hno & j & Hj).
    repeat split; try assumption.
    + apply no_triple_checkWinner. assumption.
    + exists j. split; [|assumption]. apply get_is_null_lt in Hj. lia.
  - destruct Hc as (m & Hw & Hck). exists m.
    destruct (checkWinner_some _ _ _ Hck) as [Hin Hl]. auto.
  - destruct Hc as (Hw & Hcells & Hno & Hfull).
    repeat split; try assumption.
    + apply no_triple_checkWinner. assumption.
    + intros j Hj.
      destruct (dense_nth _ j Hd) as [[m|] Hp]; [lia| |].
      * exists m. unfold Js.get. rewrite Hp. reflexivity.
      * exfalso. apply (Hfull j). unfold empty_at, Js.get. rewrite Hp.
        reflexivity.
Qed.

Lemma reachable_status_agrees_with_board_witness :
  exists m, winner (gameState wonRoundWorld) = Some m
            /\ line_of m (board (gameState wonRoundWorld))
                       (winningCells (gameState wonRoundWorld)).
Proof.
  destruct (reachable_status_agrees_with_board wonRoundWorld) as (_ & H & _).
  - apply (run_reachable
             [ModeClicked pvp; CellClicked 0; CellClicked 4; CellClicked 1;
              CellClicked 8; CellClicked 2] initialWorld).
    + apply reachable_initial.
    + vm_compute. reflexivity.
  - destruct (H eq_refl) as (m & Hw & _ & _ & Hl). exists m. split; assumption.
Defined.

(** ** The scoreboard counts finished rounds *)

Lemma round_ended_same (g : GameState) : round_ended g g = false.
Proof. unfold round_ended. destruct (is_playing (status g)); reflexivity. Qed.

Lemma round_ended_to_playing (g g' : GameState) :
  status g' = playing -> round_ended g g' = false.
Proof.
  intros H. unfold round_ended. rewrite H. simpl. apply andb_false_r.
Qed.

Lemma makeMove_total (index : nat) (player : Player) (g : GameState) :
  scores_total (scores (makeMove index player g))
  = scores_total (scores g)
    + (if round_ended g (makeMove index player g) then 1 else 0).
Proof.
  destruct (Js.truthy (Js.get (board g) index)
            || negb (is_playing (status g))) eqn:G.
  - rewrite (makeMove_guard_true _ _ _ G), round_ended_same. lia.
  - pose proof (guard_false_playing _ _ G) as Hs.
    unfold makeMove. rewrite G. cbv zeta. unfold round_ended. rewrite Hs.
    destruct (checkWinner (Js.set (Js.spread (board g)) index (Val player)))
      as [[w|] cells].
    + destruct w; unfold scores_total; simpl; lia.
    + destruct (Js.every_not_null
                  (Js.set (Js.spread (board g)) index (Val player)));
        unfold scores_total; simpl; lia.
Qed.

Lemma step_total (e : Event) (w w' : World) :
  step e w = Some w' ->
  e <> ResetScoresClicked ->
  scores_total (scores (gameState w'))
  = scores_total (scores (gameState w))
    + (if round_ended (gameState w) (gameState w') then 1 else 0).
Proof.
  intros H Hne.
  destruct (step_cases _ _ _ H)
    as [E|[(i & p & E)|[[_ E]|[[D _]|(m & _ & _ & E)]]]]; rewrite ?E.
  - rewrite round_ended_same. lia.
  - apply makeMove_total.
  - rewrite round_ended_to_playing by reflexivity. simpl. lia.
  - contradiction.
  - rewrite round_ended_to_playing by reflexivity. simpl. lia.
Qed.

(** X8: along any run of events the sum of the three counts is the number
    of rounds that ended (a transition from [playing] to [won] or [draw])
    since the scores were last reset; from session start it is the number
    of rounds ended since the last score reset, counted from zero. *)
Theorem scoreboard_counts_finished_rounds :
  (forall es w w',
      run es w = Some w' ->
      rounds_completed es w (scores_total (scores (gameState w)))
      = Some (scores_total (scores (gameState w'))))
  /\ (forall es w',
         run es initialWorld = Some w' ->
         rounds_completed es initialWorld 0
         = Some (scores_total (scores (gameState w')))).
Proof.
  assert (Hgen : forall es w w',
             run es w = Some w' ->
             rounds_completed es w (scores_total (scores (gameState w)))
             = Some (scores_total (scores (gameState w')))).
  { induction es as [|e es IH]; cbn [run rounds_completed]; intros w w' H.
    - inversion H. reflexivity.
    - destruct (step e w) as [w1|] eqn:E; [|discriminate].
      rewrite <- (IH w1 w' H). f_equal.
      destruct e;
        try (symmetry; apply (step_total _ _ _ E); discriminate).
      unfold step in E. simpl in E. inversion E.
      rewrite gameState_afterRender. reflexivity. }
  split; [exact Hgen|]. intros es w' H. exact (Hgen es initialWorld w' H).
Qed.

Lemma scoreboard_counts_finished_rounds_witness :
  rounds_completed
    [ModeClicked pvp; CellClicked 0; CellClicked 4; CellClicked 1;
     CellClicked 8; CellClicked 2] initialWorld 0
  = Some (scores_total (scores (gameState wonRoundWorld))).
Proof.
  apply (proj2 scoreboard_counts_finished_rounds). vm_compute. reflexivity.
Defined.

(** ** A finished round is frozen *)

Lemma afterRender_unchanged (w : World) : afterRender (gameState w) w = w.
Proof.
  unfold afterRender. cbv zeta.
  assert (Hc : is_player (currentPlayer (gameState w))
                         (currentPlayer (gameState w)) = true)
    by (apply is_player_true; reflexivity).
  rewrite Hc.
  destruct (GameStatus_eq_dec (status (gameState w)) (status (gameState w)));
    [|congruence].
  destruct (GameMode_eq_dec (mode (gameState w)) (mode (gameState w)));
    [|congruence].
  match goal with
  | |- context [list_eq_dec ?d ?a ?b] => destruct (list_eq_dec d a b)
  end; [|congruence].
  simpl. rewrite !andb_false_r. reflexivity.
Qed.

Lemma cellDisabled_not_playing (g : GameState) (index : nat) :
  status g <> playing -> cellDisabled g index = true.
Proof.
  intros Hs. unfold cellDisabled.
  destruct (nth_error (board g) index) as [[| |value]|]; try reflexivity.
  assert (E : is_playing (status g) = false).
  { destruct (is_playing (status g)) eqn:E; [|reflexivity].
    apply is_playing_true in E. contradiction. }
  rewrite E. reflexivity.
Qed.

(** X9: once a round is over ([won] or [draw]) a cell click leaves the
    whole world as it is, and neither the timer event nor the AI event can
    occur; only the three controller actions change anything, and each of
    them starts a fresh round. *)
Theorem finished_round_is_frozen (w : World) :
  status (gameState w) <> playing ->
  (forall index, step (CellClicked index) w = Some w)
  /\ (forall r, step (TimerFired r) w = None)
  /\ (forall r, step (AiDelayElapsed r) w = None)
  /\ (forall e w', step e w = Some w' ->
                   gameState w' <> gameState w ->
                   (e = NewGameClicked \/ e = ResetScoresClicked
                    \/ exists m, e = ModeClicked m)
                   /\ board (gameState w') = board INITIAL_STATE
                   /\ status (gameState w') = playing
                   /\ currentPlayer (gameState w') = Some X).
Proof.
  intros Hs.
  assert (Hp : is_playing (status (gameState w)) = false).
  { destruct (is_playing (status (gameState w))) eqn:E; [|reflexivity].
    apply is_playing_true in E. contradiction. }
  split; [|split; [|split]].
  - intros index. unfold step, handle, clickCell.
    rewrite (cellDisabled_not_playing _ index Hs).
    rewrite afterRender_unchanged. reflexivity.
  - intros r. unfold step, handle, timerRunning. rewrite Hp.
    rewrite andb_false_r. reflexivity.
  - intros r. unfold step, handle, aiToMove. rewrite Hp.
    rewrite andb_false_r. reflexivity.
  - intros e w' H Hne.
    destruct (step_detail _ _ _ H)
      as [E|[(i & p & _ & Hpl & _)|[[-> E]|[[-> E]|(m & -> & _ & E)]]]].
    + contradiction.
    + contradiction.
    + rewrite E. split; [left; reflexivity | repeat split].
    + rewrite E. split; [right; left; reflexivity | repeat split].
    + rewrite E. split; [right; right; exists m; reflexivity | repeat split].
Qed.

Lemma finished_round_is_frozen_witness :
  step (CellClicked 3) wonRoundWorld = Some wonRoundWorld
  /\ step (TimerFired 0) wonRoundWorld = None
  /\ step (AiDelayElapsed 0) wonRoundWorld = None.
Proof.
  assert (Hs : status (gameState wonRoundWorld) <> playing)
    by (simpl; discriminate).
  destruct (finished_round_is_frozen wonRoundWorld Hs) as (H1 & H2 & H3 & _).
  split; [apply H1 | split; [apply H2 | apply H3]].
Defined.

(** ** The timer runs exactly when a timed player is to move *)

Lemma afterRender_same_game (before : GameState) (w1 : World) :
  gameState w1 = before -> afterRender before w1 = w1.
Proof. intros <-. apply afterRender_unchanged. Qed.

Lemma afterRender_not_ai (before : GameState) (w1 : World) :
  aiToMove (gameState w1) = false ->
  isTimerActive (afterRender before w1) = isTimerActive w1
  \/ isTimerActive (afterRender before w1) = true.
Proof.
  intros H. unfold afterRender. cbv zeta. rewrite H. simpl.
  match goal with
  | |- context [if ?c then _ else _] => destruct c
  end; simpl; auto.
Qed.

Lemma afterRender_ai (before : GameState) (w1 : World) :
  aiToMove (gameState w1) = true ->
  currentPlayer before <> currentPlayer (gameState w1) ->
  isTimerActive (afterRender before w1) = false.
Proof.
  intros H Hne. unfold afterRender. cbv zeta. rewrite H.
  assert (Hc : is_player (currentPlayer before)
                         (currentPlayer (gameState w1)) = false).
  { destruct (is_player (currentPlayer before)
                        (currentPlayer (gameState w1))) eqn:E;
      [|reflexivity].
    apply is_player_true in E. contradiction. }
  rewrite Hc. simpl.
  apply aiToMove_true in H. destruct H as (Hm & Hcur & Hs).
  rewrite Hm, Hcur, Hs. reflexivity.
Qed.

Lemma aiToMove_after_O (i : nat) (g : GameState) :
  status g = playing -> empty_at (board g) i ->
  aiToMove (makeMove i (Some O) g) = false.
Proof.
  intros Hs He.
  destruct (aiToMove (makeMove i (Some O) g)) eqn:A; [|reflexivity].
  apply aiToMove_true in A. destruct A as (_ & Hcur & Hst).
  destruct (makeMove_turn i O g Hs He) as [[Hn _]|[_ E]];
    [contradiction | simpl in E; congruence].
Qed.

Lemma aiToMove_X_to_move (g : GameState) :
  currentPlayer g = Some X -> aiToMove g = false.
Proof.
  intros H. destruct (aiToMove g) eqn:A; [|reflexivity].
  apply aiToMove_true in A. destruct A as (_ & Hc & _). congruence.
Qed.

Lemma step_timer_active (e : Event) (w w' : World) :
  step e w = Some w' ->
  isTimerActive w = negb (aiToMove (gameState w)) ->
  isTimerActive w' = negb (aiToMove (gameState w')).
Proof.
  unfold step. destruct (handle e w) as [w1|] eqn:E; [|discriminate].
  intros H Inv. inversion H. clear H H1 w'.
  rewrite gameState_afterRender.
  assert (Hsame : forall v, gameState v = gameState w ->
                  isTimerActive v = isTimerActive w ->
                  isTimerActive (afterRender (gameState w) v)
                  = negb (aiToMove (gameState v))).
  { intros v Hg Ha. rewrite (afterRender_same_game _ _ Hg). congruence. }
  assert (Hnot : forall v, aiToMove (gameState v) = false ->
                 isTimerActive v = true ->
                 isTimerActive (afterRender (gameState w) v)
                 = negb (aiToMove (gameState v))).
  { intros v Hai Ha. rewrite Hai.
    destruct (afterRender_not_ai (gameState w) v Hai) as [-> | ->]; auto. }
  destruct e as [index|r|r| | |m]; simpl in E.
  - inversion E. clear E H0. unfold clickCell.
    destruct (cellDisabled (gameState w) index) eqn:D;
      [rewrite afterRender_unchanged; exact Inv|].
    destruct (cellDisabled_false _ _ D) as (Hs & He & Hm).
    set (w1' := {| gameState := makeMove index (currentPlayer (gameState w))
                                         (gameState w);
                   timeLeft := timeLeft w;
                   isTimerActive := isTimerActive w |}).
    assert (Hbefore : aiToMove (gameState w) = false).
    { destruct (aiToMove (gameState w)) eqn:A; [|reflexivity].
      apply aiToMove_true in A. destruct A as (Hpve & Hcur & _).
      rewrite (Hm Hpve) in Hcur. discriminate. }
    destruct (aiToMove (gameState w1')) eqn:A.
    + pose proof A as A'. apply aiToMove_true in A'.
      destruct A' as (Hpve & Hcur & _). simpl in Hpve, Hcur.
      rewrite (makeMove_mode _ _ _) in Hpve.
      rewrite (afterRender_ai (gameState w) w1' A); [reflexivity|].
      simpl. rewrite Hcur, (Hm Hpve). discriminate.
    + rewrite <- A. apply Hnot; [exact A|]. simpl.
      rewrite Inv, Hbefore. reflexivity.
  - destruct (timerRunning w) eqn:T; [|discriminate].
    apply andb_true_iff in T. destruct T as [Ha Hs].
    apply is_playing_true in Hs. unfold tick in E.
    destruct (timeLeft w <=? 1); [|inversion E; apply Hsame; reflexivity].
    destruct (onTimeUp r (gameState w)) as [g|] eqn:U; [|discriminate].
    inversion E. clear E H0. unfold onTimeUp in U.
    destruct (is_pve (mode (gameState w))
              && is_player (currentPlayer (gameState w)) (Some X)) eqn:C1.
    + apply andb_true_iff in C1. destruct C1 as [_ Hc].
      apply is_player_true in Hc.
      destruct (randomMoveFor_detail _ _ _ _ U) as [[_ ->]|[i [Hi ->]]];
        [apply Hsame; reflexivity|].
      apply Hnot; [|exact Ha]. simpl.
      apply aiToMove_after_O; [assumption|].
      apply availableMoves_In. eapply nth_error_In. eassumption.
    + destruct (is_pvp (mode (gameState w))) eqn:C2;
        [|inversion U; apply Hsame; reflexivity].
      apply is_pvp_true in C2.
      destruct (randomMoveFor_detail _ _ _ _ U) as [[_ ->]|[i [Hi ->]]];
        [apply Hsame; reflexivity|].
      apply Hnot; [|exact Ha]. simpl.
      match goal with
      | |- aiToMove ?g' = false => destruct (aiToMove g') eqn:A
      end; [|reflexivity].
      apply aiToMove_true in A. destruct A as (Hpve & _).
      rewrite (makeMove_mode _ _ _) in Hpve. congruence.
  - destruct (aiToMove (gameState w)) eqn:A; [|discriminate].
    apply aiToMove_true in A. destruct A as (Hm & Hc & Hs).
    unfold aiMove in E.
    destruct (getBestMove r (board (gameState w))) as [i|] eqn:B;
      [|discriminate].
    inversion E. clear E H0. apply Hnot; [|reflexivity]. simpl.
    apply aiToMove_after_O; [assumption|].
    eapply getBestMove_some_empty. eassumption.
  - inversion E.
    apply Hnot; [apply aiToMove_X_to_move|]; reflexivity.
  - inversion E.
    apply Hnot; [apply aiToMove_X_to_move|]; reflexivity.
  - inversion E. unfold clickModeButton.
    destruct (modeButtonDisabled (gameState w));
      [rewrite afterRender_unchanged; exact Inv|].
    apply Hnot; [apply aiToMove_X_to_move|]; reflexivity.
Qed.

Lemma reachable_timer_active (w : World) :
  reachable w -> isTimerActive w = negb (aiToMove (gameState w)).
Proof.
  induction 1 as [|e w w' _ IH Hstep].
  - reflexivity.
  - eapply step_timer_active; eassumption.
Qed.

(** X10: in every reachable world the timer is suspended exactly while the
    AI is to move ([pve] mode, O's turn, round in progress); so the timer
    event cannot occur during the AI's pause, and whenever the countdown
    is displayed it is active and shows a value from 1 to 10. *)
Theorem timer_suspended_exactly_for_ai (w : World) :
  reachable w ->
  (isTimerActive w = false <-> aiToMove (gameState w) = true)
  /\ (aiToMove (gameState w) = true ->
      forall r, step (TimerFired r) w = None)
  /\ (timerShown (gameState w) = true ->
      isTimerActive w = true /\ timerRunning w = true
      /\ 1 <= timeLeft w <= 10).
Proof.
  intros Hr. pose proof (reachable_timer_active w Hr) as Inv.
  split; [|split].
  - rewrite Inv. destruct (aiToMove (gameState w)); simpl; split; congruence.
  - intros A r. unfold step, handle, timerRunning. rewrite Inv, A.
    reflexivity.
  - intros Hshown. unfold timerShown in Hshown.
    apply andb_true_iff in Hshown. destruct Hshown as [Hp Hwho].
    assert (A : aiToMove (gameState w) = false).
    { destruct (aiToMove (gameState w)) eqn:A; [|reflexivity].
      apply aiToMove_true in A. destruct A as (Hm & Hc & _).
      rewrite Hm, Hc in Hwho. discriminate. }
    unfold timerRunning. rewrite Inv, A, Hp.
    destruct (reachable_wf w Hr) as (_ & _ & _ & Ht). auto.
Qed.

Lemma timer_suspended_exactly_for_ai_witness :
  exists w, run [CellClicked 4] initialWorld = Some w
            /\ isTimerActive w = false
            /\ step (TimerFired 0) w = None.
Proof.
  eexists. split; [vm_compute; reflexivity|].
  assert (Hr : reachable
                 (afterRender (gameState initialWorld)
                              (clickCell 4 initialWorld))).
  { apply (run_reachable [CellClicked 4] initialWorld);
      [apply reachable_initial | reflexivity]. }
  destruct (timer_suspended_exactly_for_ai _ Hr) as (H1 & H2 & _).
  split.
  - apply H1. vm_compute. reflexivity.
  - apply H2. vm_compute. reflexivity.
Defined.

(** ** The AI event *)

Lemma find_wins_at_exists (m : Mark) (board : Board) (j : nat) :
  wins_now m board j ->
  exists i, find (wins_at m board) (availableMoves board) = Some i
            /\ wins_now m board i.
Proof.
  intros Hj.
  destruct (find (wins_at m board) (availableMoves board)) as [i|] eqn:E.
  - exists i. split; [reflexivity|]. apply (find_wins_at_some _ _ _ E).
  - exfalso. exact (find_wins_at_none _ _ E j Hj).
Qed.

Lemma checkWinner_fst_some (board : Board) (m : Mark) :
  fst (checkWinner board) = Some m ->
  exists cells, checkWinner board = (Some m, cells).
Proof.
  destruct (checkWinner board) as [w cells]. simpl. intros ->.
  exists cells. reflexivity.
Qed.

(** X11: when the AI is to move and some empty cell wins for O at once, the
    AI event, whatever the draw, plays O on such a cell and ends the round:
    status [won], winner O, O's count one higher, the other counts as they
    were. *)
Theorem ai_takes_immediate_win (w : World) (r j : nat) :
  aiToMove (gameState w) = true ->
  wins_now O (board (gameState w)) j ->
  exists w' i,
    step (AiDelayElapsed r) w = Some w'
    /\ wins_now O (board (gameState w)) i
    /\ gameState w' = makeMove i (Some O) (gameState w)
    /\ status (gameState w') = won
    /\ winner (gameState w') = Some O
    /\ scores_O (scores (gameState w')) = scores_O (scores (gameState w)) + 1
    /\ scores_X (scores (gameState w')) = scores_X (scores (gameState w))
    /\ scores_draws (scores (gameState w'))
       = scores_draws (scores (gameState w)).
Proof.
  intros A Hj. destruct (find_wins_at_exists _ _ _ Hj) as (i & Hfind & Hi).
  assert (Hbest : getBestMove r (board (gameState w)) = Some i)
    by (unfold getBestMove; cbv zeta; rewrite Hfind; reflexivity).
  pose proof A as A'. apply aiToMove_true in A'. destruct A' as (_ & _ & Hs).
  destruct Hi as [He Hw].
  destruct (checkWinner_fst_some _ _ Hw) as [cells Hck].
  eexists. exists i. split.
  { unfold step, handle, aiMove. rewrite A, Hbest. reflexivity. }
  rewrite gameState_afterRender. cbn [gameState].
  split; [split; assumption|]. split; [reflexivity|].
  rewrite (makeMove_accepts _ _ _ Hs (empty_not_truthy _ _ He)).
  cbv zeta. rewrite Hck. simpl. repeat split; lia.
Qed.

Lemma ai_takes_immediate_win_witness :
  let w := {| gameState :=
                {| board := [Val (Some X); Val (Some X); Val None;
                             Val (Some O); Val (Some O); Val None;
                             Val (Some X); Val None; Val None];
                   currentPlayer := Some O; status := playing;
                   winner := None; winningCells := [];
                   scores := scores INITIAL_STATE; mode := pve |};
              timeLeft := 10; isTimerActive := false |} in
  exists w' i,
    step (AiDelayElapsed 0) w = Some w'
    /\ wins_now O (board (gameState w)) i
    /\ gameState w' = makeMove i (Some O) (gameState w)
    /\ status (gameState w') = won
    /\ winner (gameState w') = Some O
    /\ scores_O (scores (gameState w')) = scores_O (scores (gameState w)) + 1
    /\ scores_X (scores (gameState w')) = scores_X (scores (gameState w))
    /\ scores_draws (scores (gameState w'))
       = scores_draws (scores (gameState w)).
Proof.
  intros w. apply (ai_takes_immediate_win w 0 5).
  - reflexivity.
  - split; vm_compute; reflexivity.
Defined.

Lemma has_triple_reported (board : Board) (m : Mark) :
  has_triple m board ->
  (forall m', has_triple m' board -> m' = m) ->
  fst (checkWinner board) = Some m.
Proof.
  intros Hm Honly. destruct (checkWinner board) as [[v|] cells] eqn:E.
  - destruct (checkWinner_some _ _ _ E) as [Hin Hl]. simpl. f_equal.
    apply Honly. exists cells. auto.
  - exfalso. exact (proj2 (checkWinner_none _ _ E) m Hm).
Qed.

Lemma reported_has_triple (board : Board) (m : Mark) :
  fst (checkWinner board) = Some m -> has_triple m board.
Proof.
  intros H. destruct (checkWinner_fst_some _ _ H) as [cells E].
  destruct (checkWinner_some _ _ _ E) as [Hin Hl]. exists cells. auto.
Qed.

(** A win for X that is still there after O took cell [i] was there before. *)
Lemma threat_survives_block (board : Board) (i j : nat) :
  (forall m, ~ has_triple m board) ->
  wins_now X (Js.set (Js.spread board) i (Val (Some O))) j ->
  j <> i /\ wins_now X board j.
Proof.
  intros Hno [He Hw]. apply empty_at_newBoard in He. destruct He as [Hji He].
  split; [assumption|]. split; [assumption|].
  apply reported_has_triple in Hw. destruct Hw as (line & Hin & Hl).
  assert (Hline : line_of X (Js.set (Js.spread board) j (Val (Some X))) line).
  { destruct Hl as (a & b & c & -> & Ha & Hb & Hc).
    assert (Hcell : forall k,
               Js.get (Js.set (Js.spread
                                 (Js.set (Js.spread board) i (Val (Some O))))
                              j (Val (Some X))) k = Some (Some X) ->
               Js.get (Js.set (Js.spread board) j (Val (Some X))) k
               = Some (Some X)).
    { intros k Hk. destruct (Nat.eq_dec j k) as [->|Hjk].
      - apply get_newBoard_same.
      - rewrite get_newBoard_other in Hk by assumption.
        rewrite get_newBoard_other by assumption.
        destruct (Nat.eq_dec i k) as [->|Hik].
        + rewrite get_newBoard_same in Hk. discriminate.
        + rewrite get_newBoard_other in Hk by assumption. exact Hk. }
    exists a, b, c. auto. }
  apply has_triple_reported; [exists line; auto|].
  intros m' Hm'. pose proof (has_triple_newBoard _ _ _ _ Hno Hm'). congruence.
Qed.

(** X12: when the AI is to move on a board without a filled combination,
    O has no immediate win and X has one, the AI event plays O on a cell
    that would have won for X; if that cell was X's only immediate win, X
    has no immediate win left afterwards. *)
Theorem ai_blocks_immediate_threat (w : World) (r j : nat) :
  aiToMove (gameState w) = true ->
  (forall m, ~ has_triple m (board (gameState w))) ->
  (forall k, ~ wins_now O (board (gameState w)) k) ->
  wins_now X (board (gameState w)) j ->
  exists w' i,
    step (AiDelayElapsed r) w = Some w'
    /\ wins_now X (board (gameState w)) i
    /\ gameState w' = makeMove i (Some O) (gameState w)
    /\ Js.get (board (gameState w')) i = Some (Some O)
    /\ ((forall k, wins_now X (board (gameState w)) k -> k = i) ->
        forall k, ~ wins_now X (board (gameState w')) k).
Proof.
  intros A Hno HnoO Hj.
  destruct (find_wins_at_exists _ _ _ Hj) as (i & Hfind & Hi).
  assert (HfindO : find (wins_at O (board (gameState w)))
                        (availableMoves (board (gameState w))) = None).
  { destruct (find (wins_at O (board (gameState w)))
                   (availableMoves (board (gameState w)))) as [k|] eqn:E;
      [|reflexivity].
    exfalso. exact (HnoO k (find_wins_at_some _ _ _ E)). }
  assert (Hbest : getBestMove r (board (gameState w)) = Some i)
    by (unfold getBestMove; cbv zeta; rewrite HfindO, Hfind; reflexivity).
  pose proof A as A'. apply aiToMove_true in A'. destruct A' as (_ & _ & Hs).
  eexists. exists i. split.
  { unfold step, handle, aiMove. rewrite A, Hbest. reflexivity. }
  rewrite gameState_afterRender. cbn [gameState].
  split; [assumption|]. split; [reflexivity|].
  rewrite (makeMove_board _ _ _ Hs (proj1 Hi)).
  split; [apply get_newBoard_same|].
  intros Honly k Hk.
  destruct (threat_survives_block _ _ _ Hno Hk) as [Hki Hwas].
  apply Hki. apply Honly. assumption.
Qed.

Lemma ai_blocks_immediate_threat_witness :
  let w := {| gameState :=
                {| board := [Val (Some X); Val (Some X); Val None;
                             Val None; Val (Some O); Val None;
                             Val None; Val None; Val None];
                   currentPlayer := Some O; status := playing;
                   winner := None; winningCells := [];
                   scores := scores INITIAL_STATE; mode := pve |};
              timeLeft := 10; isTimerActive := false |} in
  exists w' i,
    step (AiDelayElapsed 0) w = Some w'
    /\ wins_now X (board (gameState w)) i
    /\ gameState w' = makeMove i (Some O) (gameState w)
    /\ Js.get (board (gameState w')) i = Some (Some O)
    /\ ((forall k, wins_now X (board (gameState w)) k -> k = i) ->
        forall k, ~ wins_now X (board (gameState w')) k).
Proof.
  intros w. apply (ai_blocks_immediate_threat w 0 2).
  - reflexivity.
  - apply no_triple_by_detector. vm_compute. reflexivity.
  - intros k [He Hw]. apply availableMoves_In in He.
    vm_compute in He.
    destruct He as [<-|[<-|[<-|[<-|[<-|[<-|[]]]]]]];
      vm_compute in Hw; discriminate.
  - split; vm_compute; reflexivity.
Defined.

(** ** Cell clicks *)

Lemma cellDisabled_false_iff (g : GameState) (index : nat) :
  cellDisabled g index = false
  <-> status g = playing
      /\ empty_at (board g) index
      /\ (mode g = pve -> currentPlayer g = Some X).
Proof.
  split; [apply cellDisabled_false|].
  intros (Hs & He & Hm). unfold cellDisabled.
  unfold empty_at, Js.get in He.
  destruct (nth_error (board g) index) as [[| |[mk|]]|]; try discriminate.
  rewrite Hs. simpl.
  destruct (is_pve (mode g)) eqn:P; [|reflexivity].
  apply is_pve_true in P. rewrite (Hm P). reflexivity.
Qed.

(** X13: a click on a cell is applied exactly when the round is in
    progress, the cell is empty and, in [pve] mode, it is X's turn; it then
    plays the current player's mark on that cell and touches no other cell.
    In every other case (round over, cell taken, no such cell, AI's turn)
    the click changes nothing at all. *)
Theorem cell_click_effect (index : nat) (w : World) :
  (status (gameState w) = playing
   /\ empty_at (board (gameState w)) index
   /\ (mode (gameState w) = pve -> currentPlayer (gameState w) = Some X) ->
   exists w',
     step (CellClicked index) w = Some w'
     /\ gameState w'
        = makeMove index (currentPlayer (gameState w)) (gameState w)
     /\ Js.get (board (gameState w')) index
        = Some (currentPlayer (gameState w))
     /\ forall j, j <> index ->
                  Js.get (board (gameState w')) j
                  = Js.get (board (gameState w)) j)
  /\ (~ (status (gameState w) = playing
         /\ empty_at (board (gameState w)) index
         /\ (mode (gameState w) = pve ->
             currentPlayer (gameState w) = Some X)) ->
      step (CellClicked index) w = Some w).
Proof.
  split.
  - intros Hc. pose proof Hc as (Hs & He & _).
    apply cellDisabled_false_iff in Hc.
    eexists. split.
    { unfold step, handle, clickCell. rewrite Hc. reflexivity. }
    rewrite gameState_afterRender. cbn [gameState].
    split; [reflexivity|].
    rewrite (makeMove_board _ _ _ Hs He).
    split; [apply get_newBoard_same|].
    intros j Hj. apply get_newBoard_other. congruence.
  - intros Hn. unfold step, handle, clickCell.
    destruct (cellDisabled (gameState w) index) eqn:D.
    + rewrite afterRender_unchanged. reflexivity.
    + exfalso. apply Hn. apply cellDisabled_false_iff. exact D.
Qed.

Lemma cell_click_effect_witness :
  (exists w',
      step (CellClicked 4) initialWorld = Some w'
      /\ Js.get (board (gameState w')) 4 = Some (Some X))
  /\ step (CellClicked 0) wonRoundWorld = Some wonRoundWorld.
Proof.
  split.
  - destruct (proj1 (cell_click_effect 4 initialWorld))
      as (w' & Hstep & _ & Hget & _).
    + split; [reflexivity|]. split; [reflexivity|]. intros _. reflexivity.
    + exists w'. split; assumption.
  - apply (proj2 (cell_click_effect 0 wonRoundWorld)).
    intros (Hs & _). discriminate Hs.
Defined.

(** ** Highlighted cells *)

Lemma isWinning_three (g : GameState) (a b c i : nat) :
  winningCells g = [a; b; c] ->
  (isWinning g i = true <-> i = a \/ i = b \/ i = c).
Proof.
  intros E. unfold isWinning. rewrite E. simpl.
  rewrite !orb_true_iff, !Nat.eqb_eq. intuition discriminate.
Qed.

Lemma combination_shape (line : list nat) :
  In line WINNING_COMBINATIONS ->
  exists a b c, line = [a; b; c] /\ a < b /\ b < c /\ c < 9.
Proof.
  intros H. simpl in H.
  repeat (destruct H as [<-|H];
          [do 3 eexists; split; [reflexivity | lia]|]).
  contradiction.
Qed.

(** X14: in a reachable world no cell is highlighted unless the round is
    won; when it is won exactly three cells are highlighted, they are
    distinct, they form one of the eight combinations and each of them
    holds the recorded winner's mark. *)
Theorem highlighted_cells_are_the_winning_line (w : World) :
  reachable w ->
  (status (gameState w) <> won ->
   forall i, isWinning (gameState w) i = false)
  /\ (status (gameState w) = won ->
      exists m a b c,
        winner (gameState w) = Some m
        /\ In [a; b; c] WINNING_COMBINATIONS
        /\ a < b /\ b < c /\ c < 9
        /\ (forall i, isWinning (gameState w) i = true
                      <-> i = a \/ i = b \/ i = c)
        /\ (forall i, isWinning (gameState w) i = true ->
                      Js.get (board (gameState w)) i = Some (Some m))).
Proof.
  intros Hr. pose proof (reachable_consistent w Hr) as Hc.
  unfold consistent in Hc. split.
  - intros Hs i. unfold isWinning.
    destruct (status (gameState w)); try congruence;
      destruct Hc as (_ & -> & _); reflexivity.
  - intros Hs. rewrite Hs in Hc. destruct Hc as (m & Hw & Hck).
    destruct (checkWinner_some _ _ _ Hck) as [Hin Hl].
    destruct (combination_shape _ Hin) as (a & b & c & E & Hab & Hbc & Hc9).
    exists m, a, b, c. rewrite <- E.
    split; [assumption|]. split; [assumption|].
    split; [assumption|]. split; [assumption|]. split; [assumption|].
    split; [intros i; apply isWinning_three; exact E|].
    intros i Hi. apply (isWinning_three _ a b c i E) in Hi.
    destruct Hl as (a' & b' & c' & E' & Ha & Hb & Hc').
    rewrite E in E'. inversion E'; subst a' b' c'.
    destruct Hi as [->|[->| ->]]; assumption.
Qed.

Lemma highlighted_cells_are_the_winning_line_witness :
  exists m a b c,
    winner (gameState wonRoundWorld) = Some m
    /\ In [a; b; c] WINNING_COMBINATIONS
    /\ (forall i, isWinning (gameState wonRoundWorld) i = true
                  <-> i = a \/ i = b \/ i = c).
Proof.
  destruct (highlighted_cells_are_the_winning_line wonRoundWorld)
    as [_ H].
  - apply (run_reachable
             [ModeClicked pvp; CellClicked 0; CellClicked 4; CellClicked 1;
              CellClicked 8; CellClicked 2] initialWorld).
    + apply reachable_initial.
    + vm_compute. reflexivity.
  - destruct (H eq_refl) as (m & a & b & c & Hw & Hin & _ & _ & _ & Hi & _).
    exists m, a, b, c. repeat split; try assumption; apply Hi.
Defined.

(** ** A round is won by the mark just placed *)

(** X15: whenever a transition from a reachable world ends the round with
    a win, that transition placed one mark on an empty cell and the
    recorded winner is the mark it placed; in particular a human who lets
    the clock run out in [pve] mode can only hand the win to O. *)
Theorem round_won_by_last_mover (e : Event) (w w' : World) :
  reachable w ->
  step e w = Some w' ->
  status (gameState w) = playing ->
  status (gameState w') = won ->
  exists i m,
    engine_move (gameState w) i (Some m) e
    /\ empty_at (board (gameState w)) i
    /\ gameState w' = makeMove i (Some m) (gameState w)
    /\ winner (gameState w') = Some m
    /\ wins m (scores (gameState w')) = wins m (scores (gameState w)) + 1.
Proof.
  intros Hr Hstep Hs Hwon.
  pose proof (reachable_consistent w Hr) as Hc.
  unfold consistent in Hc. rewrite Hs in Hc. destruct Hc as (_ & _ & Hno & _).
  destruct (reachable_wf w Hr) as (_ & _ & [c Hcur] & _).
  destruct (step_detail _ _ _ Hstep)
    as [E|[(i & p & Hmv & _ & He & E)|[[_ E]|[[_ E]|(m & _ & _ & E)]]]];
    try (rewrite E in Hwon; simpl in Hwon; congruence).
  assert (Hp : exists m, p = Some m).
  { destruct Hmv as [Hp _|r _ _ Hp _|r _ Hp _|r _ _ Hp _].
    - exists c. congruence.
    - exists O. assumption.
    - destruct (is_player (currentPlayer (gameState w)) (Some X)); eauto.
    - exists O. assumption. }
  destruct Hp as [m ->]. exists i, m.
  split; [assumption|]. split; [assumption|]. split; [assumption|].
  rewrite E in *.
  rewrite (makeMove_accepts _ _ _ Hs (empty_not_truthy _ _ He)) in *.
  cbv zeta in *.
  destruct (checkWinner
              (Js.set (Js.spread (board (gameState w))) i (Val (Some m))))
    as [[v|] cells] eqn:Eck.
  - destruct (checkWinner_some _ _ _ Eck) as [Hin Hl].
    assert (Ev : Some m = Some v).
    { eapply has_triple_newBoard; [exact Hno|]. exists cells. eauto. }
    inversion Ev; subst v. simpl.
    split; [reflexivity|]. destruct m; simpl; lia.
  - destruct (Js.every_not_null
                (Js.set (Js.spread (board (gameState w))) i (Val (Some m))));
      simpl in Hwon; congruence.
Qed.

Lemma round_won_by_last_mover_witness :
  let w := {| gameState := play [(0, X); (4, O); (1, X); (8, O)]
                                (changeGameMode pvp INITIAL_STATE);
              timeLeft := 10; isTimerActive := true |} in
  exists w' i m,
    step (CellClicked 2) w = Some w'
    /\ engine_move (gameState w) i (Some m) (CellClicked 2)
    /\ winner (gameState w') = Some m.
Proof.
  intros w.
  assert (Hr : reachable w).
  { apply (run_reachable
             [ModeClicked pvp; CellClicked 0; CellClicked 4; CellClicked 1;
              CellClicked 8] initialWorld).
    - apply reachable_initial.
    - vm_compute. reflexivity. }
  destruct (round_won_by_last_mover (CellClicked 2) w
              (afterRender (gameState w) (clickCell 2 w)) Hr)
    as (i & m & Hmv & _ & _ & Hw & _).
  - reflexivity.
  - vm_compute. reflexivity.
  - vm_compute. reflexivity.
  - eexists. exists i, m. split; [reflexivity|]. split; assumption.
Defined.

(** ** In [pve] mode the human never moves twice in a row *)

Lemma count_mark_replace (m m' : Mark) (arr : Board) (i : nat) :
  nth_error arr i = Some (Val None) ->
  count_mark m (Js.replace arr i (Val (Some m')))
  = count_mark m arr + (if Mark_eq_dec m m' then 1 else 0).
Proof.
  revert i.
  induction arr as [|s t IH]; intros [|i] H; simpl in H; try discriminate.
  - inversion H; subst s. unfold count_mark. simpl.
    destruct (Mark_eq_dec m m'); simpl; lia.
  - specialize (IH i H). unfold count_mark in *. cbn [Js.replace filter].
    destruct s as [| |[mk|]]; try exact IH.
    destruct (Mark_eq_dec m mk); [|exact IH].
    cbn [length]. rewrite IH. lia.
Qed.

Lemma empty_at_nth (arr : Board) (i : nat) :
  empty_at arr i -> nth_error arr i = Some (Val None).
Proof.
  unfold empty_at, Js.get.
  destruct (nth_error arr i) as [[| |[mk|]]|]; try discriminate. reflexivity.
Qed.

Lemma count_mark_makeMove (m m' : Mark) (i : nat) (g : GameState) :
  Forall (fun s => exists p, s = Val p) (board g) ->
  status g = playing -> empty_at (board g) i ->
  count_mark m (board (makeMove i (Some m') g))
  = count_mark m (board g) + (if Mark_eq_dec m m' then 1 else 0).
Proof.
  intros Hd Hs He. rewrite (makeMove_board _ _ _ Hs He).
  rewrite (newBoard_dense _ _ _ Hd (get_is_null_lt _ _ He)).
  apply count_mark_replace. apply empty_at_nth. assumption.
Qed.

Lemma fresh_human_waits (g : GameState) :
  board g = board INITIAL_STATE -> human_waits_for_ai g.
Proof.
  intros E _. rewrite E.
  assert (HX : count_mark X (board INITIAL_STATE) = 0) by reflexivity.
  assert (HO : count_mark O (board INITIAL_STATE) = 0) by reflexivity.
  rewrite HX, HO. split; [lia | intros _ _; lia].
Qed.

Lemma step_human_waits (e : Event) (w w' : World) :
  step e w = Some w' -> well_formed w ->
  human_waits_for_ai (gameState w) -> human_waits_for_ai (gameState w').
Proof.
  intros Hstep (_ & Hd & _ & _) Inv.
  destruct (step_detail _ _ _ Hstep)
    as [E|[(i & p & Hmv & Hs & He & E)|[[_ E]|[[_ E]|(m & _ & _ & E)]]]];
    rewrite E; try (apply fresh_human_waits; reflexivity); [assumption|].
  intros Hmode. rewrite (makeMove_mode _ _ _) in Hmode.
  destruct (Inv Hmode) as [Hone Hturn].
  destruct Hmv as [Hp Hx|r _ Hc Hp _|r Hpvp _ _|r _ Hc Hp _];
    [rewrite Hp, (Hx Hmode) in * | rewrite Hp in * | congruence
     | rewrite Hp in *].
  - specialize (Hturn Hs eq_refl).
    rewrite !(count_mark_makeMove _ _ _ _ Hd Hs He). simpl.
    split; [lia|]. intros Hs' Hc'.
    destruct (makeMove_turn i X (gameState w) Hs He) as [[Hn _]|[_ Ec]];
      [contradiction | simpl in Ec; congruence].
  - specialize (Hturn Hs Hc).
    rewrite !(count_mark_makeMove _ _ _ _ Hd Hs He). simpl.
    split; [lia | intros _ _; lia].
  - rewrite !(count_mark_makeMove _ _ _ _ Hd Hs He). simpl.
    split; [lia | intros _ _; lia].
Qed.

Lemma reachable_human_waits (w : World) :
  reachable w -> human_waits_for_ai (gameState w).
Proof.
  induction 1 as [|e w w' Hr IH Hstep].
  - apply fresh_human_waits. reflexivity.
  - eapply step_human_waits; [eassumption | apply reachable_wf | ]; assumption.
Qed.

(** X16: in every reachable world in [pve] mode the board never holds more
    than one X more than it holds O's, and when it is X's turn in a round
    in progress it holds no more X's than O's: the human never gets two
    moves in a row, while a human timeout does give O an extra move. *)
Theorem pve_human_never_moves_twice (w : World) :
  reachable w ->
  mode (gameState w) = pve ->
  count_mark X (board (gameState w)) <= count_mark O (board (gameState w)) + 1
  /\ (status (gameState w) = playing ->
      currentPlayer (gameState w) = Some X ->
      count_mark X (board (gameState w))
      <= count_mark O (board (gameState w)))
  /\ (status (gameState w) = playing ->
      currentPlayer (gameState w) = Some X ->
      forall index w',
        step (CellClicked index) w = Some w' ->
        gameState w' <> gameState w ->
        forall index', step (CellClicked index') w' = Some w').
Proof.
  intros Hr Hm. destruct (reachable_human_waits w Hr Hm) as [H1 H2].
  split; [exact H1|]. split; [exact H2|].
  intros Hs Hc index w' Hstep Hch index'.
  unfold step, handle, clickCell.
  destruct (cellDisabled (gameState w') index') eqn:D';
    [rewrite afterRender_unchanged; reflexivity|].
  exfalso. apply cellDisabled_false in D'. destruct D' as (Hs' & _ & Hx).
  assert (E : gameState w'
              = makeMove index (Some X) (gameState w)
              /\ empty_at (board (gameState w)) index).
  { unfold step, handle, clickCell in Hstep.
    destruct (cellDisabled (gameState w) index) eqn:D.
    - rewrite afterRender_unchanged in Hstep. inversion Hstep. congruence.
    - inversion Hstep. rewrite gameState_afterRender. cbn [gameState].
      rewrite Hc. split; [reflexivity|]. apply (cellDisabled_false _ _ D). }
  destruct E as [E He].
  assert (Hm' : mode (gameState w') = pve)
    by (rewrite E, (makeMove_mode _ _ _); assumption).
  specialize (Hx Hm'). rewrite E in Hs', Hx.
  destruct (makeMove_turn index X (gameState w) Hs He) as [[Hn _]|[_ Ec]];
    [contradiction | simpl in Ec; congruence].
Qed.

Lemma pve_human_never_moves_twice_witness :
  exists w, run [CellClicked 4] initialWorld = Some w
            /\ count_mark X (board (gameState w))
               <= count_mark O (board (gameState w)) + 1.
Proof.
  eexists. split; [vm_compute; reflexivity|].
  apply (pve_human_never_moves_twice
           (afterRender (gameState initialWorld) (clickCell 4 initialWorld))).
  - apply (run_reachable [CellClicked 4] initialWorld);
      [apply reachable_initial | reflexivity].
  - vm_compute. reflexivity.
Defined.

(** ** Where the selector is deterministic *)

Lemma find_first_position (f : nat -> bool) (l : list nat) (x : nat) :
  find f l = Some x ->
  exists rx, nth_error l rx = Some x
             /\ forall r y, r < rx -> nth_error l r = Some y -> f y = false.
Proof.
  induction l as [|h t IH]; simpl; [discriminate|].
  destruct (f h) eqn:Fh.
  - intros H. inversion H; subst. exists 0. split; [reflexivity|].
    intros r y Hr. lia.
  - intros H. destruct (IH H) as (rx & Hx & Hbefore).
    exists (S rx). split; [exact Hx|].
    intros [|r] y Hr Hy; simpl in Hy.
    + inversion Hy; subst. exact Fh.
    + apply (Hbefore r y); [lia | exact Hy].
Qed.

Lemma find_lowest_empty (f : nat -> bool) (board : Board) (i j : nat) :
  find f (availableMoves board) = Some i ->
  empty_at board j -> j < i -> f j = false.
Proof.
  intros Hfind Hj Hlt.
  destruct (find_first_position _ _ _ Hfind) as (ri & Hi & Hbefore).
  apply availableMoves_In in Hj.
  destruct (In_nth_error _ _ Hj) as [rj Hrj].
  destruct (Nat.lt_trichotomy rj ri) as [Hr|[Hr|Hr]].
  - exact (Hbefore rj j Hr Hrj).
  - subst rj. assert (i = j) by congruence. lia.
  - pose proof (null_indices_increasing 0 board ri rj i j Hr Hi Hrj). lia.
Qed.

(** X17: the draw only matters as a last resort.  If some empty cell wins
    for O at once, the selector returns the lowest such cell whatever the
    draw; otherwise, if some empty cell wins for X at once, the lowest such
    cell; otherwise, if the centre is empty, the centre. *)
Theorem getBestMove_deterministic_rules (board : Board) (r : nat) :
  ((exists j, wins_now O board j) ->
   exists i, getBestMove r board = Some i
             /\ wins_now O board i
             /\ forall j, wins_now O board j -> i <= j)
  /\ ((forall j, ~ wins_now O board j) ->
      (exists j, wins_now X board j) ->
      exists i, getBestMove r board = Some i
                /\ wins_now X board i
                /\ forall j, wins_now X board j -> i <= j)
  /\ ((forall j, ~ wins_now O board j) ->
      (forall j, ~ wins_now X board j) ->
      empty_at board 4 ->
      getBestMove r board = Some 4).
Proof.
  assert (Hleast : forall m i,
             find (wins_at m board) (availableMoves board) = Some i ->
             forall j, wins_now m board j -> i <= j).
  { intros m i Hfind j [He Hw].
    destruct (Nat.le_gt_cases i j) as [Hle|Hgt]; [exact Hle|].
    pose proof (find_lowest_empty _ _ _ _ Hfind He Hgt) as Hf.
    apply wins_at_true in Hw. congruence. }
  assert (Hnone : forall m, (forall j, ~ wins_now m board j) ->
                            find (wins_at m board) (availableMoves board)
                            = None).
  { intros m Hno.
    destruct (find (wins_at m board) (availableMoves board)) as [k|] eqn:E;
      [|reflexivity].
    exfalso. exact (Hno k (find_wins_at_some _ _ _ E)). }
  split; [|split].
  - intros [j Hj].
    destruct (find_wins_at_exists _ _ _ Hj) as (i & Hfind & Hi).
    exists i. split; [|split; [exact Hi | exact (Hleast O i Hfind)]].
    unfold getBestMove. cbv zeta. rewrite Hfind. reflexivity.
  - intros HnoO [j Hj].
    destruct (find_wins_at_exists _ _ _ Hj) as (i & Hfind & Hi).
    exists i. split; [|split; [exact Hi | exact (Hleast X i Hfind)]].
    unfold getBestMove. cbv zeta. rewrite (Hnone O HnoO), Hfind. reflexivity.
  - intros HnoO HnoX H4.
    unfold getBestMove. cbv zeta. rewrite (Hnone O HnoO), (Hnone X HnoX).
    unfold empty_at in H4. rewrite H4. reflexivity.
Qed.

Lemma getBestMove_deterministic_rules_witness :
  exists i, getBestMove 7 [Val (Some O); Val None; Val (Some O);
                           Val (Some X); Val (Some X); Val None;
                           Val (Some O); Val None; Val None] = Some i
            /\ forall j, wins_now O [Val (Some O); Val None; Val (Some O);
                                     Val (Some X); Val (Some X); Val None;
                                     Val (Some O); Val None; Val None] j ->
                         i <= j.
Proof.
  destruct (proj1 (getBestMove_deterministic_rules
                     [Val (Some O); Val None; Val (Some O);
                      Val (Some X); Val (Some X); Val None;
                      Val (Some O); Val None; Val None] 7))
    as (i & Hi & _ & Hleast).
  - exists 1. split; vm_compute; reflexivity.
  - exists i. split; assumption.
Defined.

(** ** The AI event, as a whole *)



(** ** Controller actions as transitions *)

Lemma restart_settles (before : GameState) (g : GameState) :
  currentPlayer g = Some X ->
  gameState (afterRender before (restartTimer g)) = g
  /\ timeLeft (afterRender before (restartTimer g)) = 10
  /\ isTimerActive (afterRender before (restartTimer g)) = true.
Proof.
  intros Hc. split; [apply gameState_afterRender|].
  split; [apply timeLeft_afterRender_10; reflexivity|].
  destruct (afterRender_not_ai before (restartTimer g)
                               (aiToMove_X_to_move g Hc)) as [-> | ->];
    reflexivity.
Qed.

(** X19: a new game, a score reset and an accepted mode change each lead,
    from any world, to a round that starts over: empty board, X to move,
    status [playing], no winner, no highlighted cell, countdown at 10 and
    timer active.  The new game keeps scores and mode, the score reset keeps
    the mode and zeroes the scores, the mode change keeps the scores and
    sets the mode. *)
Theorem controller_actions_restart_round (w : World) :
  (forall e, e = NewGameClicked \/ e = ResetScoresClicked
             \/ (exists m, e = ModeClicked m
                           /\ modeButtonDisabled (gameState w) = false) ->
             exists w',
               step e w = Some w'
               /\ board (gameState w') = board INITIAL_STATE
               /\ currentPlayer (gameState w') = Some X
               /\ status (gameState w') = playing
               /\ winner (gameState w') = None
               /\ (forall i, isWinning (gameState w') i = false)
               /\ timeLeft w' = 10
               /\ isTimerActive w' = true
               /\ match e with
                  | NewGameClicked =>
                      scores (gameState w') = scores (gameState w)
                      /\ mode (gameState w') = mode (gameState w)
                  | ResetScoresClicked =>
                      scores (gameState w') = scores INITIAL_STATE
                      /\ mode (gameState w') = mode (gameState w)
                  | ModeClicked m =>
                      scores (gameState w') = scores (gameState w)
                      /\ mode (gameState w') = m
                  | _ => True
                  end).
Proof.
  intros e He.
  assert (Hgen : forall g,
             board g = board INITIAL_STATE -> currentPlayer g = Some X ->
             status g = playing -> winner g = None -> winningCells g = [] ->
             step e w = Some (afterRender (gameState w) (restartTimer g)) ->
             exists w',
               step e w = Some w'
               /\ gameState w' = g
               /\ board (gameState w') = board INITIAL_STATE
               /\ currentPlayer (gameState w') = Some X
               /\ status (gameState w') = playing
               /\ winner (gameState w') = None
               /\ (forall i, isWinning (gameState w') i = false)
               /\ timeLeft w' = 10
               /\ isTimerActive w' = true).
  { intros g Hb Hc Hs Hw Hcells Hstep.
    destruct (restart_settles (gameState w) g Hc) as (Hg & Ht & Ha).
    eexists. split; [exact Hstep|]. rewrite Hg.
    repeat split; try assumption.
    intros i. unfold isWinning. rewrite Hcells. reflexivity. }
  destruct He as [->|[->|(m & -> & Hd)]].
  - destruct (Hgen (resetGame (gameState w)))
      as (w' & Hstep & Hg & H); try reflexivity.
    exists w'. split; [exact Hstep|].
    destruct H as (H1 & H2 & H3 & H4 & H5 & H6 & H7).
    repeat split; try assumption; rewrite Hg; reflexivity.
  - destruct (Hgen (resetScores (gameState w)))
      as (w' & Hstep & Hg & H); try reflexivity.
    exists w'. split; [exact Hstep|].
    destruct H as (H1 & H2 & H3 & H4 & H5 & H6 & H7).
    repeat split; try assumption; rewrite Hg; reflexivity.
  - destruct (Hgen (changeGameMode m (gameState w)))
      as (w' & Hstep & Hg & H); try reflexivity.
    { unfold step, handle, clickModeButton. rewrite Hd. reflexivity. }
    exists w'. split; [exact Hstep|].
    destruct H as (H1 & H2 & H3 & H4 & H5 & H6 & H7).
    repeat split; try assumption; rewrite Hg; reflexivity.
Qed.

Lemma controller_actions_restart_round_witness :
  exists w',
    step NewGameClicked wonRoundWorld = Some w'
    /\ board (gameState w') = board INITIAL_STATE
    /\ status (gameState w') = playing
    /\ scores (gameState w') = scores (gameState wonRoundWorld)
    /\ mode (gameState w') = pvp.
Proof.
  destruct (controller_actions_restart_round wonRoundWorld NewGameClicked)
    as (w' & Hstep & Hb & _ & Hs & _ & _ & _ & _ & Hsc & Hm).
  - left. reflexivity.
  - exists w'. repeat split; assumption.
Defined.
